(** * Theia adapters: log-level server, editorconfig document watcher,
      quick file open

    A shallow embedding of
    - [packages/core/src/node/bunyan-logger-server.ts]
      ([LogLevelCliContribution], [BunyanLoggerServer]),
    - the editorconfig [DocumentWatcher],
    - [packages/file-search/src/browser/quick-file-open.ts]
      ([QuickFileOpenService.onType]),
    together with the properties stated about them. *)

From stdpp Require Import gmap strings list fin_maps pretty.

Open Scope string_scope.
Open Scope Z_scope.
Open Scope list_scope.

(** ** JavaScript values *)

Module JS.

#[local] Set Warnings "-register-all".

(** The values that reach the modelled code: the primitives, and the arrays
    and objects [JSON.parse] can build.  Numbers are the integers; [NaN] and
    fractions never reach a comparison that the code makes.  An object is
    the list of its own properties, each key once, in the order of
    [Object.keys]. *)
Inductive value : Type :=
  | VUndefined
  | VNull
  | VBool (b : bool)
  | VNum (n : Z)
  | VStr (s : string)
  | VArr (elements : list value)
  | VObj (properties : list (string * value)).

(** [!v] is [negb (truthy v)]. *)
Definition truthy (v : value) : bool :=
  match v with
  | VUndefined | VNull => false
  | VBool b => b
  | VNum n => negb (n =? 0)
  | VStr s => negb (String.eqb s "")
  | VArr _ | VObj _ => true
  end.

(** ['lit' === v] for a string literal. *)
Definition is_str (lit : string) (v : value) : bool :=
  match v with
  | VStr s => String.eqb lit s
  | _ => false
  end.

(** [true === v]. *)
Definition is_true (v : value) : bool :=
  match v with
  | VBool true => true
  | _ => false
  end.

(** [isNumber(v)] of node's [util]: [typeof v === 'number']. *)
Definition isNumber (v : value) : option Z :=
  match v with
  | VNum n => Some n
  | _ => None
  end.

(** The values that are no objects; [in] throws a [TypeError] on them. *)
Definition primitive (v : value) : bool :=
  match v with
  | VArr _ | VObj _ => false
  | _ => true
  end.

(** The property names every plain object inherits from [Object.prototype];
    [name in {}] holds for exactly these. *)
Definition Object_prototype_keys : list string :=
  [ "constructor"; "__defineGetter__"; "__defineSetter__"; "hasOwnProperty";
    "__lookupGetter__"; "__lookupSetter__"; "isPrototypeOf";
    "propertyIsEnumerable"; "toString"; "valueOf"; "__proto__";
    "toLocaleString" ].

Definition inherited (name : string) : bool :=
  bool_decide (name ∈ Object_prototype_keys).

(** The double quote character, for messages that quote a value. *)
Definition dquote : string := String (Ascii.ascii_of_nat 34) EmptyString.

(** How a call ends: a synchronous [throw], or the promise it returns,
    already resolved or already rejected. *)
Inductive completion (A : Type) : Type :=
  | Throws (message : string)
  | Resolves (a : A)
  | Rejects (reason : string).
Arguments Throws {A} message.
Arguments Resolves {A} a.
Arguments Rejects {A} reason.

End JS.

Import JS.

(** ** The logging server *)

Module Logger.

(** A table of six level numbers.  The code reads two of them:
    [LogLevel] ([common/logger.ts]) and [bunyan]'s own constants. *)
Record LevelTable : Type := {
  TRACE : Z;
  DEBUG : Z;
  INFO : Z;
  WARN : Z;
  ERROR : Z;
  FATAL : Z
}.

Definition level_values (T : LevelTable) : list Z :=
  [TRACE T; DEBUG T; INFO T; WARN T; ERROR T; FATAL T].

(** The logging methods of a bunyan logger. *)
Inductive method : Type :=
  | logger_trace
  | logger_debug
  | logger_info
  | logger_warn
  | logger_error
  | logger_fatal.


(** A bunyan logger, as far as the server uses it: the [logger] field it was
    created with and its level, read by [level()] and written by
    [level(n)]. *)
Record bunyan_logger : Type := {
  logger_field : string;
  level : Z
}.

(** One call of a logging method on a logger. *)
Record backend_call : Type := {
  call_logger : bunyan_logger;
  call_method : method;
  call_message : string;
  call_params : list value
}.

Record ILogLevelChangedEvent : Type := {
  loggerName : string;
  oldLogLevel : Z;
  newLogLevel : Z
}.

(** A notification handed to the client ([client.onLogLevelChanged]) or to
    the local watcher ([watcher.fireLogLevelChanged]). *)
Inductive delivery : Type :=
  | ToClient (c : nat) (e : ILogLevelChangedEvent)
  | ToWatcher (e : ILogLevelChangedEvent).

(** [LogLevelCliContribution]: its two fields. *)
Record LogLevelCliContribution : Type := {
  logLevels : gmap string Z;
  defaultLogLevel : Z
}.

(** [BunyanLoggerServer]: the registry, the client, the injected cli, and
    what the server has sent out so far (oldest first). *)
Record BunyanLoggerServer : Type := {
  loggers : gmap string bunyan_logger;
  client : option nat;
  cli : LogLevelCliContribution;
  delivered : list delivery;
  backend : list backend_call
}.

Definition with_loggers (m : gmap string bunyan_logger) (s : BunyanLoggerServer)
  : BunyanLoggerServer :=
  {| loggers := m; client := client s; cli := cli s;
     delivered := delivered s; backend := backend s |}.

Definition deliver (d : delivery) (s : BunyanLoggerServer) : BunyanLoggerServer :=
  {| loggers := loggers s; client := client s; cli := cli s;
     delivered := delivered s ++ [d]; backend := backend s |}.

Definition call_backend (c : backend_call) (s : BunyanLoggerServer)
  : BunyanLoggerServer :=
  {| loggers := loggers s; client := client s; cli := cli s;
     delivered := delivered s; backend := backend s ++ [c] |}.

(** What reading [o[name]] on the [logLevels] object finds. *)
Inductive property : Type :=
  | Own (l : Z)
  | Inherited
  | Absent.

Definition get_property (o : gmap string Z) (name : string) : property :=
  match o !! name with
  | Some l => Own l
  | None => if inherited name then Inherited else Absent
  end.

Definition no_such_logger (name : string) : string :=
  "No logger named " +:+ name +:+ ".".

Section Server.

(** The constants the file imports: [LogLevel] and [rootLoggerName] from
    [common/logger.ts], the level numbers of [bunyan]. *)
Context (LogLevel bunyan : LevelTable) (rootLoggerName : string).

(** [switch] compares with [===], case by case in the order written. *)
Definition toBunyanLevel (logLevel : Z) : Z :=
  if logLevel =? FATAL LogLevel then FATAL bunyan
  else if logLevel =? ERROR LogLevel then ERROR bunyan
  else if logLevel =? WARN LogLevel then WARN bunyan
  else if logLevel =? INFO LogLevel then INFO bunyan
  else if logLevel =? DEBUG LogLevel then DEBUG bunyan
  else if logLevel =? TRACE LogLevel then TRACE bunyan
  else INFO bunyan.

Definition toLogLevel (bunyanLogLevel : Z) : Z :=
  if bunyanLogLevel =? FATAL bunyan then FATAL LogLevel
  else if bunyanLogLevel =? ERROR bunyan then ERROR LogLevel
  else if bunyanLogLevel =? WARN bunyan then WARN LogLevel
  else if bunyanLogLevel =? INFO bunyan then INFO LogLevel
  else if bunyanLogLevel =? DEBUG bunyan then DEBUG LogLevel
  else if bunyanLogLevel =? TRACE bunyan then TRACE LogLevel
  else INFO LogLevel.

(** [opts.level] starts as the default, as it is stored; an entry found by
    [name in this.cli.logLevels] replaces it, converted.  An inherited
    entry is a function or an object, which no case of [toBunyanLevel]
    matches. *)
Definition makeLoggerOptions (c : LogLevelCliContribution) (name : string)
  : bunyan_logger :=
  {| logger_field := name;
     level := match get_property (logLevels c) name with
              | Own l => toBunyanLevel l
              | Inherited => INFO bunyan
              | Absent => defaultLogLevel c
              end |}.

(** [init]: the server right after construction.  [createLogger] and
    [child] give the new logger the level of its options. *)
Definition init (c : LogLevelCliContribution) : BunyanLoggerServer :=
  {| loggers := {[ rootLoggerName := makeLoggerOptions c rootLoggerName ]};
     client := None; cli := c; delivered := []; backend := [] |}.

Definition child (name : string) (s : BunyanLoggerServer)
  : completion unit * BunyanLoggerServer :=
  if (String.length name =? 0)%nat then
    (Rejects "Can't create a logger with an empty name.", s)
  else match loggers s !! name with
  | Some _ => (Resolves tt, s)
  | None =>
    match loggers s !! rootLoggerName with
    | None => (Throws "No root logger.", s)
    | Some _ =>
      (Resolves tt,
       with_loggers (<[name := makeLoggerOptions (cli s) name]> (loggers s)) s)
    end
  end.

Definition setClient (c : option nat) (s : BunyanLoggerServer)
  : BunyanLoggerServer :=
  {| loggers := loggers s; client := c; cli := cli s;
     delivered := delivered s; backend := backend s |}.

Definition setLogLevel (name : string) (logLevel : Z) (s : BunyanLoggerServer)
  : completion unit * BunyanLoggerServer :=
  match loggers s !! name with
  | None => (Throws (no_such_logger name), s)
  | Some logger =>
    let old := toLogLevel (level logger) in
    if old =? logLevel then (Resolves tt, s)
    else
      let logger' := {| logger_field := logger_field logger;
                        level := toBunyanLevel logLevel |} in
      let s1 := with_loggers (<[name := logger']> (loggers s)) s in
      let changedEvent := {| loggerName := name; oldLogLevel := old;
                             newLogLevel := logLevel |} in
      let s2 := match client s1 with
                | Some c => deliver (ToClient c changedEvent) s1
                | None => s1
                end in
      (Resolves tt, deliver (ToWatcher changedEvent) s2)
  end.

Definition getLogLevel (name : string) (s : BunyanLoggerServer)
  : completion Z * BunyanLoggerServer :=
  match loggers s !! name with
  | None => (Throws (no_such_logger name), s)
  | Some logger => (Resolves (toLogLevel (level logger)), s)
  end.

Definition log_method (logLevel : Z) : method :=
  if logLevel =? TRACE LogLevel then logger_trace
  else if logLevel =? DEBUG LogLevel then logger_debug
  else if logLevel =? INFO LogLevel then logger_info
  else if logLevel =? WARN LogLevel then logger_warn
  else if logLevel =? ERROR LogLevel then logger_error
  else if logLevel =? FATAL LogLevel then logger_fatal
  else logger_info.

Definition log (name : string) (logLevel : Z) (message : string)
    (params : list value) (s : BunyanLoggerServer)
  : completion unit * BunyanLoggerServer :=
  match loggers s !! name with
  | None => (Throws (no_such_logger name), s)
  | Some logger =>
    (Resolves tt,
     call_backend {| call_logger := logger; call_method := log_method logLevel;
                     call_message := message; call_params := params |} s)
  end.

(** The calls a client can make, and a server taking them one after the
    other; a call that throws or rejects leaves the server as it has made
    it by then. *)
Inductive request : Type :=
  | Call_child (name : string)
  | Call_setClient (c : option nat)
  | Call_setLogLevel (name : string) (logLevel : Z)
  | Call_getLogLevel (name : string)
  | Call_log (name : string) (logLevel : Z) (message : string)
             (params : list value).

Definition perform (s : BunyanLoggerServer) (r : request) : BunyanLoggerServer :=
  match r with
  | Call_child name => (child name s).2
  | Call_setClient c => setClient c s
  | Call_setLogLevel name logLevel => (setLogLevel name logLevel s).2
  | Call_getLogLevel name => (getLogLevel name s).2
  | Call_log name logLevel message params => (log name logLevel message params s).2
  end.

Definition serve (rs : list request) (s : BunyanLoggerServer) : BunyanLoggerServer :=
  foldl perform s rs.

(** The level the startup configuration gives to [name]: its entry in the
    per-logger mapping, or else the default. *)
Definition configured (c : LogLevelCliContribution) (name : string) : Z :=
  default (defaultLogLevel c) (logLevels c !! name).

End Server.

(** Modelled from the spec: the level numbers and the name of the root
    logger, which are declared outside this file ([LogLevel] and
    [rootLoggerName] in [common/logger.ts], the constants of bunyan).  The
    spec fixes the levels TRACE, DEBUG, INFO, WARN, ERROR, FATAL in this
    order; the numbers are bunyan's, ten apart. *)
Definition levels_10_60 : LevelTable :=
  {| TRACE := 10; DEBUG := 20; INFO := 30; WARN := 40; ERROR := 50; FATAL := 60 |}.

Definition root : string := "root".

(** *** [LogLevelCliContribution.setArguments] *)

(** The parsed command line, as far as [setArguments] reads it:
    [args['log-level']] and [args['log-levels-file']], [None] for
    [undefined]. *)
Record Arguments : Type := {
  log_level : option string;
  log_levels_file : option string
}.

(** A synchronous call either throws an [Error] with a message or
    returns. *)
Inductive result (A : Type) : Type :=
  | Thrown (message : string)
  | Returned (a : A).
Arguments Thrown {A} message.
Arguments Returned {A} a.

(** Code that updates the fields of [this] and may throw: the fields keep
    what was written before the [throw]. *)
Definition M (A : Type) : Type :=
  LogLevelCliContribution → result A * LogLevelCliContribution.

Definition ret {A} (a : A) : M A := λ c, (Returned a, c).

Definition throw {A} (message : string) : M A := λ c, (Thrown message, c).

Definition lift {A} (r : result A) : M A := λ c, (r, c).

Definition bind {A B} (m : M A) (k : A → M B) : M B :=
  λ c, match m c with
       | (Returned a, c') => k a c'
       | (Thrown e, c') => (Thrown e, c')
       end.

Definition try_catch {A} (m : M A) (handler : string → M A) : M A :=
  λ c, match m c with
       | (Thrown e, c') => handler e c'
       | r => r
       end.

Declare Scope cli_scope.
Delimit Scope cli_scope with cli.
Notation "x <- m ;; k" := (bind m (λ x, k))
  (at level 100, m at next level, right associativity) : cli_scope.
Notation "m ;;; k" := (bind m (λ _, k))
  (at level 100, right associativity) : cli_scope.

Definition set_defaultLogLevel (l : Z) : M unit :=
  λ c, (Returned tt, {| logLevels := logLevels c; defaultLogLevel := l |}).

(** [this.logLevels[logger] = l].  On a plain object the key [__proto__] is
    the inherited accessor, which ignores a number. *)
Definition set_logLevel (logger : string) (l : Z) : M unit :=
  λ c, (Returned tt,
        {| logLevels := if String.eqb logger "__proto__" then logLevels c
                        else <[logger := l]> (logLevels c);
           defaultLogLevel := defaultLogLevel c |}).

(** The fields of a new [LogLevelCliContribution]. *)
Definition new_cli (LogLevel : LevelTable) : LogLevelCliContribution :=
  {| logLevels := ∅; defaultLogLevel := INFO LogLevel |}.

(** [data[key]] on a parsed value, for the keys ['default'] and ['loggers']. *)
Fixpoint assoc (key : string) (ps : list (string * value)) : option value :=
  match ps with
  | [] => None
  | (k, v) :: ps' => if String.eqb key k then Some v else assoc key ps'
  end.

Definition member (key : string) (data : value) : option value :=
  match data with
  | VObj ps => assoc key ps
  | _ => None
  end.

(** [Object.keys(v)] with the value read under each key; [None] where
    [Object.keys] throws a [TypeError]. *)
Definition indexed (l : list value) : list (string * value) :=
  imap (λ i x, (pretty i, x)) l.

Definition own_entries (v : value) : option (list (string * value)) :=
  match v with
  | VUndefined | VNull => None
  | VBool _ | VNum _ => Some []
  | VStr s => Some (indexed ((λ a, VStr (String a EmptyString)) <$> String.list_ascii_of_string s))
  | VArr l => Some (indexed l)
  | VObj ps => Some ps
  end.

Section SetArguments.

(** What the method takes from outside the file: [LogLevel.fromString],
    [fs.readFileSync] (its error carries a message), [JSON.parse]
    (likewise), the string a template literal makes of a value, and the
    messages of the two [TypeError]s the engine can raise. *)
Context (fromString : value → option Z)
        (readFileSync : string → result string)
        (JSON_parse : string → result value)
        (ToString : value → string)
        (in_TypeError : string → value → string)
        (keys_TypeError : value → string).

Definition readLogLevelString (levelStr : value) (errMessagePrefix : string)
  : result Z :=
  match fromString levelStr with
  | None => Thrown (errMessagePrefix +:+ ": " +:+ dquote +:+ ToString levelStr
                      +:+ dquote +:+ ".")
  | Some level => Returned level
  end.

(** ['key' in data], for the keys ['default'] and ['loggers']: neither is an
    index or an inherited name, so only the own properties of an object
    count; on a primitive the operator throws. *)
Definition has_property (key : string) (data : value) : result bool :=
  match data with
  | VObj ps => Returned (bool_decide (is_Some (assoc key ps)))
  | VArr _ => Returned false
  | _ => Thrown (in_TypeError key data)
  end.

Fixpoint each_logger (filename : string) (es : list (string * value)) : M unit :=
  match es with
  | [] => ret tt
  | (logger, levelStr) :: es' =>
    (level <- lift (readLogLevelString levelStr
                      ("Unknown log level for logger " +:+ logger +:+ " in "
                         +:+ filename)) ;;
     set_logLevel logger level ;;;
     each_logger filename es')%cli
  end.

(** The body of the [try] block. *)
Definition read_levels_file (filename : string) : M unit :=
  (content <- lift (readFileSync filename) ;;
   data <- lift (JSON_parse content) ;;
   hasDefault <- lift (has_property "default" data) ;;
   (if hasDefault : bool then
      level <- lift (readLogLevelString (default VUndefined (member "default" data))
                       ("Unknown default log level in " +:+ filename)) ;;
      set_defaultLogLevel level
    else ret tt) ;;;
   hasLoggers <- lift (has_property "loggers" data) ;;
   if hasLoggers : bool then
     let loggers := default VUndefined (member "loggers" data) in
     match own_entries loggers with
     | None => throw (keys_TypeError loggers)
     | Some es => each_logger filename es
     end
   else ret tt)%cli.

Definition setArguments (args : Arguments) : M unit :=
  match log_level args, log_levels_file args with
  | Some _, Some _ =>
    throw "--log-level and --log-levels-file are mutually exclusive."
  | _, _ =>
    ((match log_level args with
      | Some l =>
        level <- lift (readLogLevelString (VStr l)
                         "Unknown log level passed to --log-level") ;;
        set_defaultLogLevel level
      | None => ret tt
      end) ;;;
     match log_levels_file args with
     | Some filename =>
       try_catch (read_levels_file filename)
         (λ e, throw ("Error reading log level file " +:+ filename +:+ ": " +:+ e))
     | None => ret tt
     end)%cli
  end.

(** A level string is malformed when [fromString] does not know it. *)
Definition valid_level (v : value) : Prop := is_Some (fromString v).

(** The mapping after the entries [es] of a [loggers] object have been
    stored, one after the other. *)
Definition levels_of (es : list (string * value)) (m : gmap string Z)
  : gmap string Z :=
  foldl (λ m e, match fromString e.2 with
                | Some l => if String.eqb e.1 "__proto__" then m
                            else <[e.1 := l]> m
                | None => m
                end) m es.

(** A mapping file as the format has it: an object whose [default], if
    there, is a level string, and whose [loggers], if there, has level
    strings under all its keys. *)
Definition well_formed (ps : list (string * value))
    (es : list (string * value)) : Prop :=
  (∀ v, assoc "default" ps = Some v → valid_level v) ∧
  match assoc "loggers" ps with
  | Some loggers => own_entries loggers = Some es
  | None => es = []
  end ∧
  Forall (λ e, valid_level e.2) es.

End SetArguments.

(** Modelled from the spec: [LogLevel.fromString], which is declared in
    [common/logger.ts], outside this file.  It knows the six level names,
    in lower case as the tests of the repository write them. *)
Definition fromString_lower (LogLevel : LevelTable) (v : value) : option Z :=
  match v with
  | VStr s =>
    if String.eqb s "trace" then Some (TRACE LogLevel)
    else if String.eqb s "debug" then Some (DEBUG LogLevel)
    else if String.eqb s "info" then Some (INFO LogLevel)
    else if String.eqb s "warn" then Some (WARN LogLevel)
    else if String.eqb s "error" then Some (ERROR LogLevel)
    else if String.eqb s "fatal" then Some (FATAL LogLevel)
    else None
  | _ => None
  end.

(** A host for the examples: a disk with three files, a parser that knows
    their contents, and the string made of a value. *)
Definition disk (filename : string) : result string :=
  if String.eqb filename "levels.json" then Returned "hello-debug-world-fatal"
  else if String.eqb filename "potato.json" then Returned "default-potato"
  else if String.eqb filename "array.json" then Returned "empty-array"
  else Thrown ("ENOENT: no such file or directory, open " +:+ filename).

Definition parse (content : string) : result value :=
  if String.eqb content "hello-debug-world-fatal" then
    Returned (VObj [ ("default", VStr "info");
                     ("loggers", VObj [ ("hello", VStr "debug");
                                        ("world", VStr "fatal") ]) ])
  else if String.eqb content "default-potato" then
    Returned (VObj [ ("default", VStr "potato") ])
  else if String.eqb content "empty-array" then Returned (VArr [])
  else Thrown "Unexpected token".

Definition show (v : value) : string :=
  match v with
  | VStr s => s
  | _ => "[object]"
  end.

(** The events handed to the client, and those handed to the watcher, in
    the order of the calls. *)
Definition client_events (ds : list delivery) : list ILogLevelChangedEvent :=
  omap (λ d, match d with ToClient _ e => Some e | ToWatcher _ => None end) ds.

Definition watcher_events (ds : list delivery) : list ILogLevelChangedEvent :=
  omap (λ d, match d with ToWatcher e => Some e | ToClient _ _ => None end) ds.

(** A configuration whose levels are levels of [LogLevel], as the types of
    its fields say. *)
Definition typed (LogLevel : LevelTable) (c : LogLevelCliContribution) : Prop :=
  defaultLogLevel c ∈ level_values LogLevel ∧
  map_Forall (λ _ l, l ∈ level_values LogLevel) (logLevels c).

End Logger.

(** ** The editorconfig document watcher *)

Module Editorconfig.

(** A line of text: its UTF-16 code units. *)
Abbreviation line := (list N).

Definition code_units (s : string) : line :=
  (λ a, N.of_nat (Ascii.nat_of_ascii a)) <$> String.list_ascii_of_string s.

(** The code units [trimRight] removes: ECMAScript's white space and line
    terminators. *)
Definition white_space (c : N) : bool :=
  bool_decide (c ∈ [9; 10; 11; 12; 13; 32; 160; 5760; 8232; 8233; 8239; 8287;
                    12288; 65279]%N)
  || ((8192 <=? c)%N && (c <=? 8202)%N).

Fixpoint drop_white_space (l : line) : line :=
  match l with
  | [] => []
  | c :: l' => if white_space c then drop_white_space l' else l
  end.

Definition trimRight (l : line) : line := rev (drop_white_space (rev l)).

(** [LINE_ENDING] *)
Definition LINE_ENDING_LF : line := [10%N].
Definition LINE_ENDING_CRLF : line := [13%N; 10%N].

(** [KnownProps]: a property that is missing reads as [undefined]. *)
Record KnownProps : Type := {
  indent_style : value;
  indent_size : value;
  tab_width : value;
  end_of_line : value;
  trim_trailing_whitespace : value;
  insert_final_newline : value
}.

Inductive key : Type :=
  | k_indent_style
  | k_indent_size
  | k_tab_width
  | k_end_of_line
  | k_trim_trailing_whitespace
  | k_insert_final_newline.

Definition get (k : key) (p : KnownProps) : value :=
  match k with
  | k_indent_style => indent_style p
  | k_indent_size => indent_size p
  | k_tab_width => tab_width p
  | k_end_of_line => end_of_line p
  | k_trim_trailing_whitespace => trim_trailing_whitespace p
  | k_insert_final_newline => insert_final_newline p
  end.

Definition set (k : key) (v : value) (p : KnownProps) : KnownProps :=
  {| indent_style := match k with k_indent_style => v | _ => indent_style p end;
     indent_size := match k with k_indent_size => v | _ => indent_size p end;
     tab_width := match k with k_tab_width => v | _ => tab_width p end;
     end_of_line := match k with k_end_of_line => v | _ => end_of_line p end;
     trim_trailing_whitespace :=
       match k with
       | k_trim_trailing_whitespace => v
       | _ => trim_trailing_whitespace p
       end;
     insert_final_newline :=
       match k with
       | k_insert_final_newline => v
       | _ => insert_final_newline p
       end |}.

(** [monaco.editor.EndOfLineSequence] *)
Inductive EndOfLineSequence : Type := LF | CRLF.

Record Position : Type := {
  lineNumber : nat;
  column : nat
}.

(** An edit operation, with the four numbers of its [monaco.Range]. *)
Record edit : Type := {
  startLineNumber : nat;
  startColumn : nat;
  endLineNumber : nat;
  endColumn : nat;
  text : line;
  forceMoveMarkers : bool
}.

(** A text buffer always has a last line. *)
Record buffer : Type := {
  linesBefore : list line;
  lastLine : line
}.

Definition lineCount (b : buffer) : nat := S (length (linesBefore b)).

(** A [MonacoEditor] with what the watcher reads and writes: the options
    and the end-of-line sequence of the text model, its lines, the cursor;
    whether the editor manager's current editor is this one; and the
    commands and edits sent so far (oldest first). *)
Record MonacoEditor : Type := {
  insertSpaces : bool;
  tabSize : Z;
  EOL : EndOfLineSequence;
  document : buffer;
  cursor : Position;
  isCurrentEditor : bool;
  executedCommands : list string;
  appliedEdits : list edit
}.

Definition updateOptions_insertSpaces (b : bool) (e : MonacoEditor) : MonacoEditor :=
  {| insertSpaces := b; tabSize := tabSize e; EOL := EOL e;
     document := document e; cursor := cursor e;
     isCurrentEditor := isCurrentEditor e;
     executedCommands := executedCommands e; appliedEdits := appliedEdits e |}.

Definition updateOptions_tabSize (n : Z) (e : MonacoEditor) : MonacoEditor :=
  {| insertSpaces := insertSpaces e; tabSize := n; EOL := EOL e;
     document := document e; cursor := cursor e;
     isCurrentEditor := isCurrentEditor e;
     executedCommands := executedCommands e; appliedEdits := appliedEdits e |}.

Definition setEOL (eol : EndOfLineSequence) (e : MonacoEditor) : MonacoEditor :=
  {| insertSpaces := insertSpaces e; tabSize := tabSize e; EOL := eol;
     document := document e; cursor := cursor e;
     isCurrentEditor := isCurrentEditor e;
     executedCommands := executedCommands e; appliedEdits := appliedEdits e |}.

Definition set_cursor (c : Position) (e : MonacoEditor) : MonacoEditor :=
  {| insertSpaces := insertSpaces e; tabSize := tabSize e; EOL := EOL e;
     document := document e; cursor := c;
     isCurrentEditor := isCurrentEditor e;
     executedCommands := executedCommands e; appliedEdits := appliedEdits e |}.

(** Inserting a line ending at column [col] of the last line splits that
    line there. *)
Definition split_lastLine (col : nat) (b : buffer) : buffer :=
  {| linesBefore := linesBefore b ++ [take (col - 1) (lastLine b)];
     lastLine := drop (col - 1) (lastLine b) |}.

Definition isSet (property : value) : bool :=
  if negb (truthy property) || is_str "unset" property then false else true.

Section Watcher.

(** The editor's side, taken as given: what the command
    [monaco.editor.action.trimTrailingWhitespace] makes of the lines of the
    focused editor, and where [applyEdits] leaves the cursor. *)
Context (trimTrailingWhitespace : buffer → buffer)
        (cursorAfterEdit : edit → Position → Position).

Definition executeCommand (command : string) (e : MonacoEditor) : MonacoEditor :=
  {| insertSpaces := insertSpaces e; tabSize := tabSize e; EOL := EOL e;
     document := trimTrailingWhitespace (document e); cursor := cursor e;
     isCurrentEditor := isCurrentEditor e;
     executedCommands := executedCommands e ++ [command];
     appliedEdits := appliedEdits e |}.

(** [applyEdits([edit])] for the one edit the watcher makes: an insertion
    in the last line. *)
Definition applyEdits (ed : edit) (e : MonacoEditor) : MonacoEditor :=
  {| insertSpaces := insertSpaces e; tabSize := tabSize e; EOL := EOL e;
     document := split_lastLine (startColumn ed) (document e);
     cursor := cursorAfterEdit ed (cursor e);
     isCurrentEditor := isCurrentEditor e;
     executedCommands := executedCommands e;
     appliedEdits := appliedEdits e ++ [ed] |}.

Definition ensureIndentStyle (properties : KnownProps) (e : MonacoEditor)
  : MonacoEditor :=
  if is_str "space" (indent_style properties) then
    updateOptions_insertSpaces true e
  else if is_str "tab" (indent_style properties) then
    updateOptions_insertSpaces false e
  else e.

Definition ensureTabWidth (properties : KnownProps) (e : MonacoEditor)
  : MonacoEditor :=
  match isNumber (tab_width properties) with
  | Some tabWidth => updateOptions_tabSize tabWidth e
  | None => e
  end.

Definition ensureIndentSize (properties : KnownProps) (e : MonacoEditor)
  : MonacoEditor :=
  if is_str "tab" (indent_size properties) then
    if isSet (tab_width properties) then ensureTabWidth properties e else e
  else match isNumber (indent_size properties) with
       | Some indentSize => updateOptions_tabSize indentSize e
       | None => e
       end.

Definition ensureEndOfLine (properties : KnownProps) (e : MonacoEditor)
  : MonacoEditor :=
  if is_str "lf" (end_of_line properties) then setEOL LF e
  else if is_str "crlf" (end_of_line properties) then setEOL CRLF e
  else e.

Definition ensureTrimTrailingWhitespace (properties : KnownProps)
    (e : MonacoEditor) : MonacoEditor :=
  if is_true (trim_trailing_whitespace properties) then
    if isCurrentEditor e then
      executeCommand "monaco.editor.action.trimTrailingWhitespace" e
    else e
  else e.

Definition ensureEndsWithNewLine (properties : KnownProps) (e : MonacoEditor)
  : MonacoEditor :=
  if is_true (insert_final_newline properties) then
    let lines := lineCount (document e) in
    let lineContent := lastLine (document e) in
    let lineContent :=
      if is_true (trim_trailing_whitespace properties) then trimRight lineContent
      else lineContent in
    let lineEnding :=
      if is_str "crlf" (end_of_line properties) then LINE_ENDING_CRLF
      else LINE_ENDING_LF in
    match lineContent with
    | [] => e
    | _ :: _ =>
      let cursor := cursor e in
      let ed := {| startLineNumber := lines;
                   startColumn := length lineContent + 1;
                   endLineNumber := lines;
                   endColumn := length lineContent + 1;
                   text := lineEnding;
                   forceMoveMarkers := false |} in
      set_cursor cursor (applyEdits ed e)
    end
  else e.

Definition applyProperties (properties : KnownProps) (e : MonacoEditor)
  : MonacoEditor :=
  let e := if isSet (indent_style properties)
           then ensureIndentStyle properties e else e in
  let e := if isSet (indent_size properties)
           then ensureIndentSize properties e else e in
  let e := if isSet (end_of_line properties)
           then ensureEndOfLine properties e else e in
  let e := if isSet (trim_trailing_whitespace properties)
           then ensureTrimTrailingWhitespace properties e else e in
  if isSet (insert_final_newline properties)
  then ensureEndsWithNewLine properties e else e.

(** The handler [addOnSaveHandler] registers with [onWillSaveModel], run
    on the properties cached for the file. *)
Definition onWillSaveModel (properties : KnownProps) (e : MonacoEditor)
  : MonacoEditor :=
  let e := if isSet (trim_trailing_whitespace properties)
           then ensureTrimTrailingWhitespace properties e else e in
  if isSet (insert_final_newline properties)
  then ensureEndsWithNewLine properties e else e.

End Watcher.

(** The edit that belongs to a property has not been made between [before]
    and [after]: the option, the end-of-line sequence, the command or the
    edit operation the property stands for.  The tab size belongs to
    [indent_size]; [tab_width] only has it where [indent_size] is no
    number. *)
Definition untouched (k : key) (properties : KnownProps)
    (before after : MonacoEditor) : Prop :=
  match k with
  | k_indent_style => insertSpaces after = insertSpaces before
  | k_indent_size => tabSize after = tabSize before
  | k_tab_width =>
    isNumber (indent_size properties) = None → tabSize after = tabSize before
  | k_end_of_line => EOL after = EOL before
  | k_trim_trailing_whitespace =>
    executedCommands after = executedCommands before
  | k_insert_final_newline => appliedEdits after = appliedEdits before
  end.

(** An editor side for the examples: the command trims every line, and
    [applyEdits] leaves the cursor at the start of the line after the
    edit. *)
Definition trim_all (b : buffer) : buffer :=
  {| linesBefore := trimRight <$> linesBefore b;
     lastLine := trimRight (lastLine b) |}.

Definition cursor_below (ed : edit) (c : Position) : Position :=
  {| lineNumber := S (startLineNumber ed); column := 1 |}.

Definition no_properties : KnownProps :=
  {| indent_style := VUndefined; indent_size := VUndefined;
     tab_width := VUndefined; end_of_line := VUndefined;
     trim_trailing_whitespace := VUndefined;
     insert_final_newline := VUndefined |}.

(** An editor showing the one line [text], with the cursor at its start. *)
Definition editor_with (text : string) (current : bool) : MonacoEditor :=
  {| insertSpaces := false; tabSize := 8; EOL := LF;
     document := {| linesBefore := []; lastLine := code_units text |};
     cursor := {| lineNumber := 1; column := 1 |};
     isCurrentEditor := current;
     executedCommands := []; appliedEdits := [] |}.

(** The characters of the text, line after line, without the line
    endings. *)
Definition characters (b : buffer) : line :=
  concat (linesBefore b) ++ lastLine b.

End Editorconfig.

(** ** Quick file open *)

Module QuickOpen.

(** How far the work started by one call of [onType] has come. *)
Inductive progress : Type :=
  | Searching
  | Converting (uris : list string)
  | Finished.

(** What one call of [onType] allocates: its [token] (the index of its
    [CancellationTokenSource]), the request it sent to [find], and its
    handler, which is waiting for [find] ([Searching]), suspended at
    [await Promise.all] with the URIs of [proposed] ([Converting]), or
    done. *)
Record search : Type := {
  token : nat;
  lookFor : string;
  rootUri : string;
  useGitIgnore : bool;
  stage : progress
}.

(** [QuickFileOpenService].  [sources] holds [isCancellationRequested] of
    every [CancellationTokenSource] made so far and [cancelIndicator] is the
    index of the one in the field; [accepted] lists the calls of the
    acceptors, each with the index of the search whose acceptor it is. *)
Record QuickFileOpenService : Type := {
  wsRoot : option string;
  rootPending : bool;
  showIgnoredFiles : bool;
  sources : list bool;
  cancelIndicator : nat;
  searches : list search;
  accepted : list (nat * list string)
}.

(** What the event loop runs, one at a time: the [then] of
    [workspaceService.root], a call of [onType], the [then] of the [find]
    promise of search [n], and the rest of its handler after the [await]. *)
Inductive event : Type :=
  | RootResolved (root : option string)
  | OnType (query : string)
  | FindResolved (n : nat) (result : list string)
  | ItemsResolved (n : nat).

(** [proposed.add(uri)]: a [Set] keeps the first insertion. *)
Definition add (uri : string) (proposed : list string) : list string :=
  if bool_decide (uri ∈ proposed) then proposed else proposed ++ [uri].

Definition set_stage (n : nat) (q : search) (p : progress)
    (s : QuickFileOpenService) : QuickFileOpenService :=
  {| wsRoot := wsRoot s; rootPending := rootPending s;
     showIgnoredFiles := showIgnoredFiles s;
     sources := sources s; cancelIndicator := cancelIndicator s;
     searches := <[n := {| token := token q; lookFor := lookFor q;
                           rootUri := rootUri q;
                           useGitIgnore := useGitIgnore q; stage := p |}]>
                   (searches s);
     accepted := accepted s |}.

Definition isCancellationRequested (t : nat) (s : QuickFileOpenService) : bool :=
  default false (sources s !! t).

Section Service.

(** [root.withPath(root.path.join(p)).toString()] *)
Context (resolve : string → string → string).

(** The service after its constructor. *)
Definition new_service : QuickFileOpenService :=
  {| wsRoot := None; rootPending := true; showIgnoredFiles := true;
     sources := [false]; cancelIndicator := 0%nat;
     searches := []; accepted := [] |}.

(** [onType], up to the call of [find]. *)
Definition onType (query : string) (s : QuickFileOpenService)
  : QuickFileOpenService :=
  match wsRoot s with
  | None => s
  | Some root =>
    let cancelled := <[cancelIndicator s := true]> (sources s) in
    {| wsRoot := wsRoot s; rootPending := rootPending s;
       showIgnoredFiles := showIgnoredFiles s;
       sources := cancelled ++ [false];
       cancelIndicator := length cancelled;
       searches := searches s ++
                   [ {| token := length cancelled; lookFor := query;
                        rootUri := root;
                        useGitIgnore := showIgnoredFiles s;
                        stage := Searching |} ];
       accepted := accepted s |}
  end.

(** [handler(result)], up to the [await]. *)
Definition handler (n : nat) (result : list string) (s : QuickFileOpenService)
  : QuickFileOpenService :=
  match searches s !! n with
  | Some q =>
    match stage q with
    | Searching =>
      if negb (isCancellationRequested (token q) s) then
        let proposed := foldl (λ acc p, add (resolve (rootUri q) p) acc) [] result in
        set_stage n q (Converting proposed) s
      else set_stage n q Finished s
    | _ => s
    end
  | None => s
  end.

(** The rest of [handler]: [acceptor(...)] with the items of the URIs. *)
Definition deliver (n : nat) (s : QuickFileOpenService) : QuickFileOpenService :=
  match searches s !! n with
  | Some q =>
    match stage q with
    | Converting uris =>
      let s' := set_stage n q Finished s in
      {| wsRoot := wsRoot s'; rootPending := rootPending s';
         showIgnoredFiles := showIgnoredFiles s';
         sources := sources s'; cancelIndicator := cancelIndicator s';
         searches := searches s';
         accepted := accepted s' ++ [(n, uris)] |}
    | _ => s
    end
  | None => s
  end.

Definition step (s : QuickFileOpenService) (ev : event) : QuickFileOpenService :=
  match ev with
  | RootResolved root =>
    if rootPending s then
      {| wsRoot := root; rootPending := false;
         showIgnoredFiles := showIgnoredFiles s;
         sources := sources s; cancelIndicator := cancelIndicator s;
         searches := searches s; accepted := accepted s |}
    else s
  | OnType query => onType query s
  | FindResolved n result => handler n result s
  | ItemsResolved n => deliver n s
  end.

Definition run (evs : list event) (s : QuickFileOpenService)
  : QuickFileOpenService :=
  foldl step s evs.

(** The acceptor calls made for search [n]. *)
Definition accepted_of (n : nat) (s : QuickFileOpenService)
  : list (nat * list string) :=
  filter (λ c, c.1 = n) (accepted s).

End Service.

(** Search [n] is the one in flight: it holds the token in the field and
    [find] has not resolved. *)
Definition in_flight (n : nat) (s : QuickFileOpenService) : Prop :=
  ∃ q, searches s !! n = Some q ∧ token q = cancelIndicator s ∧
       stage q = Searching.

(** Search [n] has been cancelled before its handler got past the check of
    the token. *)
Definition superseded (n : nat) (s : QuickFileOpenService) : Prop :=
  ∃ q, searches s !! n = Some q ∧ sources s !! token q = Some true ∧
       (stage q = Searching ∨ stage q = Finished).

(** What holds of a service whatever has happened: the field holds a
    source that exists, an acceptor has only been called by a handler that
    is done, and a search has only been made with a workspace root. *)
Definition consistent (s : QuickFileOpenService) : Prop :=
  (cancelIndicator s < length (sources s))%nat ∧
  (∀ n uris, (n, uris) ∈ accepted s →
     ∃ q, searches s !! n = Some q ∧ stage q = Finished) ∧
  (is_Some (wsRoot s) → rootPending s = false) ∧
  (searches s ≠ [] → is_Some (wsRoot s)).

(** Joining a path to the root, for the examples. *)
Definition join (root p : string) : string := root +:+ "/" +:+ p.

(** Sources and searches are numbered alike: search [n] holds the source
    [S n], the field holds the newest source, and among the sources only
    that one is not cancelled. *)
Definition numbered (s : QuickFileOpenService) : Prop :=
  cancelIndicator s = length (searches s) ∧
  length (sources s) = S (length (searches s)) ∧
  (∀ n q, searches s !! n = Some q → token q = S n) ∧
  (∀ i b, sources s !! i = Some b → b = bool_decide (i ≠ cancelIndicator s)).

(** *** [open] and [getKeyCommand] *)

(** [parts.join(" ")] *)
Fixpoint join_spaces (parts : list string) : string :=
  match parts with
  | [] => ""
  | [x] => x
  | x :: parts' => x +:+ " " +:+ join_spaces parts'
  end.

(** [str.replace(" ", "+")]: a string pattern replaces the first match
    only. *)
Fixpoint replace_space (str : string) : string :=
  match str with
  | EmptyString => EmptyString
  | String a str' =>
    if Ascii.eqb a (Ascii.ascii_of_nat 32)
    then String (Ascii.ascii_of_nat 43) str'
    else String a (replace_space str')
  end.

(** [getKeyCommand], on what the keybinding registry answers: [None] for a
    falsy answer, else the accelerator of the first keybinding, a list of
    key names. *)
Definition getKeyCommand (accelerator : option (list string)) : option string :=
  match accelerator with
  | Some parts => Some (replace_space (join_spaces parts))
  | None => None
  end.

(** The service with the flag [opened] and the calls it has made on the
    quick open service: the placeholders of [open], the number of
    [refresh]. *)
Record widget : Type := {
  service : QuickFileOpenService;
  opened : bool;
  openedWith : list string;
  refreshed : nat
}.

Definition set_showIgnoredFiles (b : bool) (s : QuickFileOpenService)
  : QuickFileOpenService :=
  {| wsRoot := wsRoot s; rootPending := rootPending s; showIgnoredFiles := b;
     sources := sources s; cancelIndicator := cancelIndicator s;
     searches := searches s; accepted := accepted s |}.

Definition placeholder (accelerator : option (list string)) : string :=
  match getKeyCommand accelerator with
  | Some keybinding =>
    if String.eqb keybinding "" then ""
    else "File name to search press " +:+ keybinding
           +:+ " to show/hide .gitignore files"
  | None => ""
  end.

Definition open (accelerator : option (list string)) (w : widget) : widget :=
  let placeholderText := placeholder accelerator in
  if negb (opened w) then
    {| service := service w; opened := true;
       openedWith := openedWith w ++ [placeholderText];
       refreshed := refreshed w |}
  else
    {| service := set_showIgnoredFiles (negb (showIgnoredFiles (service w)))
                    (service w);
       opened := opened w; openedWith := openedWith w;
       refreshed := S (refreshed w) |}.

(** The [onClose] handed to the quick open service. *)
Definition onClose (w : widget) : widget :=
  {| service := set_showIgnoredFiles true (service w); opened := false;
     openedWith := openedWith w; refreshed := refreshed w |}.

(** What happens to a widget: the command opens it, the quick open service
    closes it, the event loop runs a step of the service. *)
Inductive action : Type :=
  | Open (accelerator : option (list string))
  | Close
  | Loop (ev : event).

Definition act (resolve : string → string → string) (w : widget) (a : action)
  : widget :=
  match a with
  | Open accelerator => open accelerator w
  | Close => onClose w
  | Loop ev =>
    {| service := step resolve (service w) ev; opened := opened w;
       openedWith := openedWith w; refreshed := refreshed w |}
  end.

Definition new_widget : widget :=
  {| service := new_service; opened := false; openedWith := [];
     refreshed := 0%nat |}.

End QuickOpen.

(** * Properties of the logging server *)

Module LoggerFacts.

Import Logger.

Section Server.

Context (LogLevel bunyan : LevelTable) (rootLoggerName : string).

#[local] Abbreviation toBunyanLevel := (Logger.toBunyanLevel LogLevel bunyan).
#[local] Abbreviation toLogLevel := (Logger.toLogLevel LogLevel bunyan).
#[local] Abbreviation makeLoggerOptions := (Logger.makeLoggerOptions LogLevel bunyan).
#[local] Abbreviation child := (Logger.child LogLevel bunyan rootLoggerName).
#[local] Abbreviation setLogLevel := (Logger.setLogLevel LogLevel bunyan).
#[local] Abbreviation getLogLevel := (Logger.getLogLevel LogLevel bunyan).
#[local] Abbreviation log := (Logger.log LogLevel).
#[local] Abbreviation log_method := (Logger.log_method LogLevel).

(** Six numbers without a repetition are pairwise different. *)
Lemma NoDup_level_values (T : LevelTable) :
  NoDup (level_values T) →
  TRACE T ≠ DEBUG T ∧ TRACE T ≠ INFO T ∧ TRACE T ≠ WARN T ∧ TRACE T ≠ ERROR T ∧
  TRACE T ≠ FATAL T ∧ DEBUG T ≠ INFO T ∧ DEBUG T ≠ WARN T ∧ DEBUG T ≠ ERROR T ∧
  DEBUG T ≠ FATAL T ∧ INFO T ≠ WARN T ∧ INFO T ≠ ERROR T ∧ INFO T ≠ FATAL T ∧
  WARN T ≠ ERROR T ∧ WARN T ≠ FATAL T ∧ ERROR T ≠ FATAL T.
Proof.
  unfold level_values. rewrite !NoDup_cons, !elem_of_cons, !elem_of_nil.
  intros H. repeat split; intros E; rewrite E in H; tauto.
Qed.

Lemma elem_of_level_values (T : LevelTable) (l : Z) :
  l ∈ level_values T ↔
  l = TRACE T ∨ l = DEBUG T ∨ l = INFO T ∨ l = WARN T ∨ l = ERROR T ∨ l = FATAL T.
Proof.
  unfold level_values. rewrite !elem_of_cons, elem_of_nil. tauto.
Qed.

Ltac cases_eqb :=
  repeat match goal with
         | |- context [Z.eqb ?a ?b] => destruct (Z.eqb_spec a b)
         end.

(** Each level of [LogLevel] is converted to bunyan's level of the same
    name, and back. *)
Lemma toBunyanLevel_values :
  NoDup (level_values LogLevel) →
  toBunyanLevel (TRACE LogLevel) = TRACE bunyan ∧
  toBunyanLevel (DEBUG LogLevel) = DEBUG bunyan ∧
  toBunyanLevel (INFO LogLevel) = INFO bunyan ∧
  toBunyanLevel (WARN LogLevel) = WARN bunyan ∧
  toBunyanLevel (ERROR LogLevel) = ERROR bunyan ∧
  toBunyanLevel (FATAL LogLevel) = FATAL bunyan.
Proof.
  intros HL. apply NoDup_level_values in HL. unfold Logger.toBunyanLevel.
  repeat split; cases_eqb; try reflexivity; exfalso; intuition congruence.
Qed.

Lemma toLogLevel_values :
  NoDup (level_values bunyan) →
  toLogLevel (TRACE bunyan) = TRACE LogLevel ∧
  toLogLevel (DEBUG bunyan) = DEBUG LogLevel ∧
  toLogLevel (INFO bunyan) = INFO LogLevel ∧
  toLogLevel (WARN bunyan) = WARN LogLevel ∧
  toLogLevel (ERROR bunyan) = ERROR LogLevel ∧
  toLogLevel (FATAL bunyan) = FATAL LogLevel.
Proof.
  intros HB. apply NoDup_level_values in HB. unfold Logger.toLogLevel.
  repeat split; cases_eqb; try reflexivity; exfalso; intuition congruence.
Qed.

Lemma toLogLevel_toBunyanLevel (l : Z) :
  NoDup (level_values LogLevel) → NoDup (level_values bunyan) →
  l ∈ level_values LogLevel → toLogLevel (toBunyanLevel l) = l.
Proof.
  intros HL HB Hl.
  destruct (toBunyanLevel_values HL) as (B1 & B2 & B3 & B4 & B5 & B6).
  destruct (toLogLevel_values HB) as (L1 & L2 & L3 & L4 & L5 & L6).
  apply elem_of_level_values in Hl.
  destruct Hl as [-> | [-> | [-> | [-> | [-> | ->]]]]]; congruence.
Qed.

(** With the same numbers on both sides, [toLogLevel] leaves a level as it
    is. *)
Lemma toLogLevel_same_numbers (l : Z) :
  level_values bunyan = level_values LogLevel →
  l ∈ level_values LogLevel → toLogLevel l = l.
Proof.
  intros E Hl. apply elem_of_level_values in Hl.
  unfold level_values in E. injection E as E1 E2 E3 E4 E5 E6.
  unfold Logger.toLogLevel. rewrite E1, E2, E3, E4, E5, E6.
  cases_eqb; intuition congruence.
Qed.



(** C1.  For a registered logger, [setLogLevel] with the level the logger
    has (the one [getLogLevel] answers) changes nothing and notifies nobody;
    with another level it sends one event, carrying the name, the old level
    and the level asked for, to the client if one is set and then to the
    watcher, and to nobody else.  A level of the enumeration is afterwards
    the one [getLogLevel] answers. *)
Theorem setLogLevel_notifies_once (s : BunyanLoggerServer) (name : string)
    (logger : bunyan_logger) (logLevel : Z) :
  loggers s !! name = Some logger →
  let current := toLogLevel (level logger) in
  getLogLevel name s = (Resolves current, s) ∧
  (logLevel = current → setLogLevel name logLevel s = (Resolves tt, s)) ∧
  (logLevel ≠ current →
   let e := {| loggerName := name; oldLogLevel := current;
               newLogLevel := logLevel |} in
   ∃ s', setLogLevel name logLevel s = (Resolves tt, s') ∧
     delivered s' = delivered s ++
                    match client s with
                    | Some c => [ToClient c e; ToWatcher e]
                    | None => [ToWatcher e]
                    end ∧
     loggers s' = <[name := {| logger_field := logger_field logger;
                               level := toBunyanLevel logLevel |}]> (loggers s) ∧
     client s' = client s ∧ cli s' = cli s ∧ backend s' = backend s ∧
     (NoDup (level_values LogLevel) → NoDup (level_values bunyan) →
      logLevel ∈ level_values LogLevel →
      getLogLevel name s' = (Resolves logLevel, s'))).
Proof.
  intros Hname current. unfold Logger.getLogLevel, Logger.setLogLevel.
  rewrite Hname. fold current. split; [reflexivity |]. split.
  - intros ->. rewrite Z.eqb_refl. reflexivity.
  - intros Hne. cbv zeta. destruct (Z.eqb_spec current logLevel) as [E | _];
      [congruence |].
    eexists. split; [reflexivity |].
    destruct s as [ls [c |] cl dl bk]; cbn.
    all: split; [by rewrite <- ?app_assoc |].
    all: repeat (split; [reflexivity |]).
    all: intros HL HB Hin; rewrite lookup_insert_eq; cbn.
    all: by rewrite toLogLevel_toBunyanLevel.
Qed.

(** C2.  For a name that is not in the registry, [getLogLevel],
    [setLogLevel] and [log] each throw the error naming it,
    [No logger named <name>.], and leave the server as it was. *)
Theorem unknown_logger_throws (s : BunyanLoggerServer) (name : string)
    (logLevel : Z) (message : string) (params : list value) :
  loggers s !! name = None →
  getLogLevel name s = (Throws ("No logger named " +:+ name +:+ "."), s) ∧
  setLogLevel name logLevel s = (Throws ("No logger named " +:+ name +:+ "."), s) ∧
  log name logLevel message params s
    = (Throws ("No logger named " +:+ name +:+ "."), s).
Proof.
  intros Hname.
  unfold Logger.getLogLevel, Logger.setLogLevel, Logger.log.
  rewrite Hname. auto.
Qed.


(** C8.  [child] with the empty name is rejected, and [child] with a name
    (not empty) that is in the registry resolves; both leave the server as
    it was. *)
Theorem child_empty_or_registered (s : BunyanLoggerServer) (name : string) :
  (name = "" →
   child name s = (Rejects "Can't create a logger with an empty name.", s)) ∧
  (name ≠ "" → is_Some (loggers s !! name) → child name s = (Resolves tt, s)).
Proof.
  unfold Logger.child. split.
  - intros ->. reflexivity.
  - intros Hne [logger Hl]. destruct name as [| a name]; [done |].
    cbn. by rewrite Hl.
Qed.

(** [child] with a name that the registry does not have, in a server with
    a root logger, adds the logger made from the options. *)
Lemma child_new (s s' : BunyanLoggerServer) (name : string) :
  loggers s !! name = None →
  child name s = (Resolves tt, s') →
  s' = with_loggers (<[name := makeLoggerOptions (cli s) name]> (loggers s)) s.
Proof.
  unfold Logger.child. intros Hname.
  destruct (String.length name =? 0)%nat; [done |]. rewrite Hname.
  destruct (loggers s !! rootLoggerName); [| done]. by intros [= <-].
Qed.

(** C6, as amended.  When [LogLevel] and bunyan number their levels alike,
    the configured levels are levels of the enumeration, and [name] is
    neither in the registry yet nor a name the mapping object inherits:
    after [child name] has resolved, [getLogLevel name] answers the level
    the mapping has for [name], or else the default. *)
Theorem new_child_has_configured_level (s s' : BunyanLoggerServer)
    (name : string) :
  NoDup (level_values LogLevel) →
  level_values bunyan = level_values LogLevel →
  defaultLogLevel (cli s) ∈ level_values LogLevel →
  map_Forall (λ _ l, l ∈ level_values LogLevel) (logLevels (cli s)) →
  loggers s !! name = None →
  inherited name = false →
  child name s = (Resolves tt, s') →
  getLogLevel name s' = (Resolves (configured (cli s) name), s').
Proof.
  intros HL HB Hdef Hmap Hname Hinh Hchild.
  rewrite (child_new _ _ _ Hname Hchild).
  unfold Logger.getLogLevel, configured, Logger.makeLoggerOptions, get_property.
  cbn. rewrite lookup_insert_eq. cbn.
  destruct (logLevels (cli s) !! name) as [l |] eqn:El; cbn.
  - rewrite toLogLevel_toBunyanLevel; [done | done | by rewrite HB |].
    by apply (Hmap name).
  - rewrite Hinh. by rewrite toLogLevel_same_numbers.
Qed.

End Server.

(** ** The properties at work, with the numbers 10 to 60 *)

Abbreviation deployed := (Logger.init levels_10_60 levels_10_60 root
                           (new_cli levels_10_60)).

Lemma NoDup_levels_10_60 : NoDup (level_values levels_10_60).
Proof. compute_done. Qed.

(** A server with client 7: setting the root logger from INFO to DEBUG
    notifies the client, then the watcher. *)
Lemma setLogLevel_notifies_once_witness :
  let s := setClient (Some 7%nat) deployed in
  let e := {| loggerName := root; oldLogLevel := 30; newLogLevel := 20 |} in
  Logger.setLogLevel levels_10_60 levels_10_60 root 30 s = (Resolves tt, s) ∧
  ∃ s', Logger.setLogLevel levels_10_60 levels_10_60 root 20 s = (Resolves tt, s') ∧
        delivered s' = [ToClient 7 e; ToWatcher e] ∧
        Logger.getLogLevel levels_10_60 levels_10_60 root s' = (Resolves 20, s').
Proof.
  intros s e.
  destruct (setLogLevel_notifies_once levels_10_60 levels_10_60 s root
              {| logger_field := root; level := 30 |} 20 eq_refl)
    as (_ & _ & Hchange).
  destruct (setLogLevel_notifies_once levels_10_60 levels_10_60 s root
              {| logger_field := root; level := 30 |} 30 eq_refl)
    as (_ & Hsame & _).
  split; [exact (Hsame eq_refl) |].
  destruct Hchange as (s' & Hset & Hd & _ & _ & _ & _ & Hget);
    [discriminate |].
  exists s'. split; [exact Hset |]. split; [exact Hd |].
  apply Hget; [exact NoDup_levels_10_60 | exact NoDup_levels_10_60 |].
  apply elem_of_level_values. right. left. reflexivity.
Defined.

Lemma unknown_logger_throws_witness :
  Logger.getLogLevel levels_10_60 levels_10_60 "task" deployed
    = (Throws "No logger named task.", deployed) ∧
  Logger.setLogLevel levels_10_60 levels_10_60 "task" 20 deployed
    = (Throws "No logger named task.", deployed) ∧
  Logger.log levels_10_60 "task" 20 "started" [] deployed
    = (Throws "No logger named task.", deployed).
Proof.
  exact (unknown_logger_throws levels_10_60 levels_10_60 deployed "task" 20
           "started" [] eq_refl).
Defined.


Lemma child_empty_or_registered_witness :
  Logger.child levels_10_60 levels_10_60 root "" deployed
    = (Rejects "Can't create a logger with an empty name.", deployed) ∧
  Logger.child levels_10_60 levels_10_60 root root deployed
    = (Resolves tt, deployed).
Proof.
  destruct (child_empty_or_registered levels_10_60 levels_10_60 root deployed "")
    as [Hempty _].
  destruct (child_empty_or_registered levels_10_60 levels_10_60 root deployed root)
    as [_ Hroot].
  split; [exact (Hempty eq_refl) |].
  apply Hroot; [discriminate |]. by eexists.
Defined.

(** C6, as stated, fails for a name that is registered: after
    [child "a"] and [setLogLevel "a" DEBUG], the call [child "a"] resolves
    again, and [getLogLevel "a"] answers DEBUG, while nothing is configured
    for [a] and the default is INFO. *)
Lemma child_of_registered_name_keeps_level :
  let s := serve levels_10_60 levels_10_60 root
             [Call_child "a"; Call_setLogLevel "a" 20] deployed in
  configured (cli s) "a" = 30 ∧
  ∃ s', Logger.child levels_10_60 levels_10_60 root "a" s = (Resolves tt, s') ∧
        Logger.getLogLevel levels_10_60 levels_10_60 "a" s'
          ≠ (Resolves (configured (cli s) "a"), s').
Proof.
  intros s. split; [reflexivity |]. exists s. split; [reflexivity |].
  intros H. apply (f_equal fst) in H. vm_compute in H. discriminate H.
Qed.

(** A name that every object inherits counts as one the mapping has: with
    the default DEBUG, the logger [constructor] is made with INFO. *)
Example inherited_name_ignores_default :
  let c := {| logLevels := ∅; defaultLogLevel := 20 |} in
  let s := serve levels_10_60 levels_10_60 root [Call_child "constructor"]
             (Logger.init levels_10_60 levels_10_60 root c) in
  configured c "constructor" = 20 ∧
  Logger.getLogLevel levels_10_60 levels_10_60 "constructor" s
    = (Resolves 30, s).
Proof. by vm_compute. Qed.

(** A new logger [task] with the mapping [{task: DEBUG}] and default
    WARN. *)
Lemma new_child_has_configured_level_witness :
  let c := {| logLevels := {[ "task" := 20 ]}; defaultLogLevel := 40 |} in
  let s := Logger.init levels_10_60 levels_10_60 root c in
  ∃ s', Logger.child levels_10_60 levels_10_60 root "task" s = (Resolves tt, s') ∧
        Logger.getLogLevel levels_10_60 levels_10_60 "task" s' = (Resolves 20, s').
Proof.
  intros c s. eexists. split; [reflexivity |].
  apply (new_child_has_configured_level levels_10_60 levels_10_60 root s _ "task").
  - exact NoDup_levels_10_60.
  - reflexivity.
  - apply elem_of_level_values. cbn. tauto.
  - intros k l Hk. cbn in Hk. apply lookup_singleton_Some in Hk as [_ <-].
    apply elem_of_level_values. cbn. tauto.
  - reflexivity.
  - reflexivity.
  - reflexivity.
Defined.

(** ** Startup arguments *)

Section SetArguments.

Context (fromString : value → option Z)
        (readFileSync : string → result string)
        (JSON_parse : string → result value)
        (ToString : value → string)
        (in_TypeError : string → value → string)
        (keys_TypeError : value → string).

#[local] Abbreviation readLogLevelString :=
  (Logger.readLogLevelString fromString ToString).
#[local] Abbreviation each_logger := (Logger.each_logger fromString ToString).
#[local] Abbreviation read_levels_file :=
  (Logger.read_levels_file fromString readFileSync JSON_parse ToString
     in_TypeError keys_TypeError).
#[local] Abbreviation setArguments :=
  (Logger.setArguments fromString readFileSync JSON_parse ToString
     in_TypeError keys_TypeError).
#[local] Abbreviation valid_level := (Logger.valid_level fromString).
#[local] Abbreviation levels_of := (Logger.levels_of fromString).
#[local] Abbreviation well_formed := (Logger.well_formed fromString).

(** The message of the error thrown for a level string nobody knows. *)
#[local] Abbreviation unknown prefix v :=
  (prefix +:+ ": " +:+ dquote +:+ ToString v +:+ dquote +:+ ".").

Lemma each_logger_valid (filename : string) (es : list (string * value))
    (c : LogLevelCliContribution) :
  Forall (λ e, valid_level e.2) es →
  each_logger filename es c
    = (Returned tt, {| logLevels := levels_of es (logLevels c);
                       defaultLogLevel := defaultLogLevel c |}).
Proof.
  intros Hes. revert c.
  induction Hes as [| [k v] es [l Hl] _ IH]; intros c.
  - by destruct c.
  - cbn in Hl. cbn. unfold Logger.readLogLevelString. rewrite Hl, IH.
    reflexivity.
Qed.

Lemma each_logger_invalid (filename : string)
    (good rest : list (string * value)) (k : string) (v : value)
    (c : LogLevelCliContribution) :
  Forall (λ e, valid_level e.2) good → fromString v = None →
  (each_logger filename (good ++ (k, v) :: rest) c).1
    = Thrown (unknown ("Unknown log level for logger " +:+ k +:+ " in "
                         +:+ filename) v).
Proof.
  intros Hgood Hv. revert c.
  induction Hgood as [| [k' v'] good [l Hl] _ IH]; intros c.
  - cbn. unfold Logger.readLogLevelString. by rewrite Hv.
  - cbn in Hl. cbn. unfold Logger.readLogLevelString at 1. rewrite Hl.
    apply IH.
Qed.

Lemma has_property_object (key : string) (ps : list (string * value)) :
  has_property in_TypeError key (VObj ps)
    = Returned (bool_decide (is_Some (assoc key ps))).
Proof. reflexivity. Qed.

(** A well-formed file is read to its end. *)
Lemma read_levels_file_well_formed (filename content : string)
    (ps es : list (string * value)) (c : LogLevelCliContribution) :
  readFileSync filename = Returned content →
  JSON_parse content = Returned (VObj ps) →
  well_formed ps es →
  read_levels_file filename c
    = (Returned tt,
       {| logLevels := levels_of es (logLevels c);
          defaultLogLevel :=
            default (defaultLogLevel c) (assoc "default" ps ≫= fromString) |}).
Proof.
  intros Hread Hparse (Hdef & Hlog & Hes).
  unfold Logger.read_levels_file, bind, lift. rewrite Hread, Hparse.
  rewrite !has_property_object. cbn.
  destruct (assoc "default" ps) as [d |] eqn:Ed; cbn.
  - destruct (Hdef d eq_refl) as [l Hl]. unfold Logger.readLogLevelString.
    rewrite Hl. cbn.
    destruct (assoc "loggers" ps) as [lg |] eqn:Eg; cbn.
    + rewrite Hlog. by rewrite each_logger_valid.
    + subst es. by destruct c.
  - destruct (assoc "loggers" ps) as [lg |] eqn:Eg; cbn.
    + rewrite Hlog. by rewrite each_logger_valid.
    + subst es. by destruct c.
Qed.

(** C5.  [setArguments] throws when both [--log-level] and
    [--log-levels-file] are given.  With [--log-level] alone and a level
    string that [fromString] knows it returns with that default; with
    [--log-levels-file] alone and a well-formed file it returns with the
    default and the mapping of the file; with neither it returns and
    changes nothing, so that the default stays INFO.  A level string that
    [fromString] does not know, on the command line or in the file, and a
    file that cannot be read, cannot be parsed or holds no object, make it
    throw, with a message that says which. *)
Theorem setArguments_startup (LogLevel : LevelTable)
    (c : LogLevelCliContribution) (l f : string) :
  let both := {| log_level := Some l; log_levels_file := Some f |} in
  let level_only := {| log_level := Some l; log_levels_file := None |} in
  let file_only := {| log_level := None; log_levels_file := Some f |} in
  let neither := {| log_level := None; log_levels_file := None |} in
  let unreadable e := "Error reading log level file " +:+ f +:+ ": " +:+ e in
  setArguments both c
    = (Thrown "--log-level and --log-levels-file are mutually exclusive.", c) ∧
  (∀ level, fromString (VStr l) = Some level →
     setArguments level_only c
       = (Returned tt, {| logLevels := logLevels c; defaultLogLevel := level |})) ∧
  (∀ content ps es,
     readFileSync f = Returned content →
     JSON_parse content = Returned (VObj ps) →
     well_formed ps es →
     setArguments file_only c
       = (Returned tt,
          {| logLevels := levels_of es (logLevels c);
             defaultLogLevel :=
               default (defaultLogLevel c) (assoc "default" ps ≫= fromString) |})) ∧
  (setArguments neither c = (Returned tt, c) ∧
   defaultLogLevel (new_cli LogLevel) = INFO LogLevel) ∧
  (fromString (VStr l) = None →
     setArguments level_only c
       = (Thrown (unknown "Unknown log level passed to --log-level" (VStr l)), c)) ∧
  (∀ e, readFileSync f = Thrown e →
     setArguments file_only c = (Thrown (unreadable e), c)) ∧
  (∀ content e,
     readFileSync f = Returned content → JSON_parse content = Thrown e →
     setArguments file_only c = (Thrown (unreadable e), c)) ∧
  (∀ content data,
     readFileSync f = Returned content → JSON_parse content = Returned data →
     primitive data = true →
     setArguments file_only c
       = (Thrown (unreadable (in_TypeError "default" data)), c)) ∧
  (∀ content ps v,
     readFileSync f = Returned content →
     JSON_parse content = Returned (VObj ps) →
     assoc "default" ps = Some v → fromString v = None →
     setArguments file_only c
       = (Thrown (unreadable (unknown ("Unknown default log level in " +:+ f) v)),
          c)) ∧
  (∀ content ps loggers good k v rest,
     readFileSync f = Returned content →
     JSON_parse content = Returned (VObj ps) →
     (∀ d, assoc "default" ps = Some d → valid_level d) →
     assoc "loggers" ps = Some loggers →
     own_entries loggers = Some (good ++ (k, v) :: rest) →
     Forall (λ e, valid_level e.2) good → fromString v = None →
     (setArguments file_only c).1
       = Thrown (unreadable (unknown ("Unknown log level for logger " +:+ k
                                        +:+ " in " +:+ f) v))).
Proof.
  intros both level_only file_only neither unreadable.
  unfold Logger.setArguments; cbn.
  split; [reflexivity |]. split.
  { intros level Hl. unfold Logger.readLogLevelString. rewrite Hl.
    reflexivity. }
  split.
  { intros content ps es Hread Hparse Hwf. unfold try_catch.
    by rewrite (read_levels_file_well_formed _ _ _ _ _ Hread Hparse Hwf). }
  split; [split; reflexivity |]. split.
  { intros Hl. unfold Logger.readLogLevelString. by rewrite Hl. }
  split.
  { intros e Hread. unfold try_catch, Logger.read_levels_file, bind, lift.
    by rewrite Hread. }
  split.
  { intros content e Hread Hparse.
    unfold try_catch, Logger.read_levels_file, bind, lift.
    by rewrite Hread, Hparse. }
  split.
  { intros content data Hread Hparse Hprim.
    unfold try_catch, Logger.read_levels_file, bind, lift.
    rewrite Hread, Hparse. by destruct data. }
  split.
  { intros content ps v Hread Hparse Hd Hv.
    unfold try_catch, Logger.read_levels_file, bind, lift.
    rewrite Hread, Hparse. cbn. rewrite Hd. cbn.
    unfold Logger.readLogLevelString. by rewrite Hv. }
  intros content ps loggers good k v rest Hread Hparse Hdef Hlg Hes Hgood Hv.
  unfold try_catch, Logger.read_levels_file, bind, lift.
  rewrite Hread, Hparse. cbn. rewrite Hlg. cbn. rewrite Hes.
  pose proof (each_logger_invalid f good rest k v) as Hbad.
  destruct (assoc "default" ps) as [d |] eqn:Ed; cbn.
  - destruct (Hdef d eq_refl) as [ld Hld]. unfold Logger.readLogLevelString at 1.
    rewrite Hld. cbn.
    specialize (Hbad {| logLevels := logLevels c; defaultLogLevel := ld |}
                  Hgood Hv).
    destruct (each_logger _ _ _) as [[e | []] c']; cbn in Hbad;
      [by injection Hbad as -> | discriminate].
  - specialize (Hbad c Hgood Hv).
    destruct (each_logger _ _ _) as [[e | []] c']; cbn in Hbad;
      [by injection Hbad as -> | discriminate].
Qed.

End SetArguments.

(** The arguments of the tests of the repository: [--log-level=debug]; a
    file with [default: info] and [hello: debug], [world: fatal]; a file
    that is not there; a file whose default is [potato]. *)
Lemma setArguments_startup_witness :
  let setArguments :=
    Logger.setArguments (fromString_lower levels_10_60) disk parse show
      (λ _ _, "TypeError") (λ _, "TypeError") in
  let c := new_cli levels_10_60 in
  setArguments {| log_level := Some "debug"; log_levels_file := None |} c
    = (Returned tt, {| logLevels := ∅; defaultLogLevel := 20 |}) ∧
  setArguments {| log_level := None; log_levels_file := Some "levels.json" |} c
    = (Returned tt, {| logLevels := {[ "hello" := 20; "world" := 60 ]};
                       defaultLogLevel := 30 |}) ∧
  setArguments {| log_level := None; log_levels_file := Some "gone.json" |} c
    = (Thrown ("Error reading log level file gone.json: "
                 +:+ "ENOENT: no such file or directory, open gone.json"), c) ∧
  setArguments {| log_level := None; log_levels_file := Some "potato.json" |} c
    = (Thrown ("Error reading log level file potato.json: "
                 +:+ "Unknown default log level in potato.json: "
                 +:+ dquote +:+ "potato" +:+ dquote +:+ "."), c).
Proof.
  intros setArguments c.
  pose proof (setArguments_startup (fromString_lower levels_10_60) disk parse
                show (λ _ _, "TypeError") (λ _, "TypeError") levels_10_60 c)
    as H.
  destruct (H "debug" "levels.json") as (_ & Hlevel & Hfile & _).
  destruct (H "debug" "gone.json") as (_ & _ & _ & _ & _ & Hgone & _).
  destruct (H "debug" "potato.json")
    as (_ & _ & _ & _ & _ & _ & _ & _ & Hpotato & _).
  split; [exact (Hlevel 20 eq_refl) |]. split.
  - apply (Hfile "hello-debug-world-fatal" _
             [("hello", VStr "debug"); ("world", VStr "fatal")]
             eq_refl eq_refl).
    split; [| split].
    + intros v [= <-]. by eexists.
    + reflexivity.
    + repeat constructor; by eexists.
  - split.
    + exact (Hgone _ eq_refl).
    + exact (Hpotato "default-potato" _ (VStr "potato") eq_refl eq_refl
               eq_refl eq_refl).
Defined.

(** A file that parses to something other than the mapping object, here an
    empty array, has neither key and is read without an error. *)
Example other_shape_is_accepted :
  let c := new_cli levels_10_60 in
  Logger.setArguments (fromString_lower levels_10_60) disk parse show
    (λ _ _, "TypeError") (λ _, "TypeError")
    {| log_level := None; log_levels_file := Some "array.json" |} c
  = (Returned tt, c).
Proof. reflexivity. Qed.

(** ** Further properties of the server *)

Section ServerLaws.

Context (LogLevel bunyan : LevelTable) (rootLoggerName : string).

#[local] Abbreviation toBunyanLevel := (Logger.toBunyanLevel LogLevel bunyan).
#[local] Abbreviation toLogLevel := (Logger.toLogLevel LogLevel bunyan).
#[local] Abbreviation init := (Logger.init LogLevel bunyan rootLoggerName).
#[local] Abbreviation child := (Logger.child LogLevel bunyan rootLoggerName).
#[local] Abbreviation setLogLevel := (Logger.setLogLevel LogLevel bunyan).
#[local] Abbreviation getLogLevel := (Logger.getLogLevel LogLevel bunyan).
#[local] Abbreviation log := (Logger.log LogLevel).
#[local] Abbreviation perform := (Logger.perform LogLevel bunyan rootLoggerName).
#[local] Abbreviation serve := (Logger.serve LogLevel bunyan rootLoggerName).

Ltac split_eqb :=
  repeat match goal with
         | |- context [Z.eqb ?a ?b] => destruct (Z.eqb_spec a b)
         end.

Lemma conversions_in_range (n : Z) :
  toBunyanLevel n ∈ level_values bunyan ∧ toLogLevel n ∈ level_values LogLevel.
Proof.
  unfold Logger.toBunyanLevel, Logger.toLogLevel.
  split; split_eqb; apply elem_of_level_values; tauto.
Qed.


(** With six different numbers on each side the two conversions are
    inverse to each other on the levels. *)
Theorem conversions_round_trip (l b : Z) :
  NoDup (level_values LogLevel) → NoDup (level_values bunyan) →
  (l ∈ level_values LogLevel → toLogLevel (toBunyanLevel l) = l) ∧
  (b ∈ level_values bunyan → toBunyanLevel (toLogLevel b) = b).
Proof.
  intros HL HB.
  destruct (toBunyanLevel_values LogLevel bunyan HL) as (B1 & B2 & B3 & B4 & B5 & B6).
  destruct (toLogLevel_values LogLevel bunyan HB) as (L1 & L2 & L3 & L4 & L5 & L6).
  split; intros H; apply elem_of_level_values in H;
    destruct H as [-> | [-> | [-> | [-> | [-> | ->]]]]]; congruence.
Qed.

(** What one call adds to the deliveries: nothing, or one event for the
    watcher with, in front of it, the same event for the client.  The event
    comes from a [setLogLevel] on a registered logger and carries the level
    that logger had and the different level asked for. *)
Lemma perform_delivers (s : BunyanLoggerServer) (r : request) :
  delivered (perform s r) = delivered s ∨
  ∃ logger e,
    r = Call_setLogLevel (loggerName e) (newLogLevel e) ∧
    loggers s !! loggerName e = Some logger ∧
    oldLogLevel e = toLogLevel (level logger) ∧
    oldLogLevel e ≠ newLogLevel e ∧
    delivered (perform s r)
      = delivered s ++ match client s with
                       | Some c => [ToClient c e; ToWatcher e]
                       | None => [ToWatcher e]
                       end.
Proof.
  destruct r as [name | c | name l | name | name l m ps]; cbn.
  - left. unfold Logger.child. by repeat case_match.
  - by left.
  - unfold Logger.setLogLevel.
    destruct (loggers s !! name) as [logger |] eqn:Hl; [| by left].
    destruct (Z.eqb_spec (toLogLevel (level logger)) l) as [E | Hne];
      [by left |].
    right.
    exists logger, {| loggerName := name;
                      oldLogLevel := toLogLevel (level logger);
                      newLogLevel := l |}.
    cbn. repeat split; try done.
    destruct s as [ls [c |] cl dl bk]; cbn; by rewrite <- ?app_assoc.
  - left. unfold Logger.getLogLevel. by case_match.
  - left. unfold Logger.log. by case_match.
Qed.

(** No call takes a logger out of the registry. *)
Lemma perform_keeps_loggers (s : BunyanLoggerServer) (r : request)
    (name : string) :
  is_Some (loggers s !! name) → is_Some (loggers (perform s r) !! name).
Proof.
  intros Hname.
  destruct r as [name' | c | name' l | name' | name' l m ps]; cbn; try done.
  - unfold Logger.child. repeat case_match; try done.
    all: cbn; rewrite lookup_insert; by case_decide.
  - unfold Logger.setLogLevel. repeat case_match; try done.
    all: cbn; rewrite lookup_insert; by case_decide.
  - unfold Logger.getLogLevel. by case_match.
  - unfold Logger.log. by case_match.
Qed.

Lemma serve_keeps_loggers (rs : list request)
    (s : BunyanLoggerServer) (name : string) :
  is_Some (loggers s !! name) → is_Some (loggers (serve rs s) !! name).
Proof.
  revert s. induction rs as [| r rs IH]; intros s Hname; [done |].
  cbn. by apply IH, perform_keeps_loggers.
Qed.

(** A logger that is registered stays registered, whatever calls
    follow. *)
Theorem registered_stays_registered (rs : list request)
    (s : BunyanLoggerServer) (name : string) :
  is_Some (loggers s !! name) → is_Some (loggers (serve rs s) !! name).
Proof. apply serve_keeps_loggers. Qed.

(** In a server that has been constructed, [child] never throws: it
    rejects the empty name and resolves for every other one. *)
Theorem child_never_throws (c : LogLevelCliContribution) (rs : list request)
    (name : string) :
  let s := serve rs (init c) in
  if decide (name = "") then
    child name s = (Rejects "Can't create a logger with an empty name.", s)
  else (child name s).1 = Resolves tt.
Proof.
  intros s.
  assert (is_Some (loggers s !! rootLoggerName)) as [rootLogger Hroot].
  { apply serve_keeps_loggers. cbn. rewrite lookup_singleton_eq.
    by eexists. }
  unfold Logger.child. case_decide as Hname.
  - by subst name.
  - destruct name as [| a name]; [done |]. cbn.
    destruct (loggers s !! String a name); [done |]. by rewrite Hroot.
Qed.

(** After [child name] has resolved, [name] is registered: [getLogLevel]
    answers for it, a second [child name] changes nothing, and the loggers
    of the other names are as before. *)
Theorem child_registers (s s' : BunyanLoggerServer) (name : string) :
  child name s = (Resolves tt, s') →
  (∃ l, getLogLevel name s' = (Resolves l, s')) ∧
  child name s' = (Resolves tt, s') ∧
  (∀ name', name' ≠ name → loggers s' !! name' = loggers s !! name') ∧
  delivered s' = delivered s ∧ backend s' = backend s.
Proof.
  unfold Logger.child, Logger.getLogLevel.
  destruct (String.length name =? 0)%nat eqn:Hlen; [done |].
  destruct (loggers s !! name) as [logger |] eqn:Hl.
  - intros [= <-]. rewrite Hl. split; [by eexists | done].
  - destruct (loggers s !! rootLoggerName); [| done]. intros [= <-]. cbn.
    rewrite lookup_insert_eq. split; [by eexists |].
    repeat split. intros name' Hne.
    by rewrite lookup_insert_ne by (by apply not_eq_sym).
Qed.

(** [setLogLevel] on one logger leaves the level of every other logger as
    it was. *)
Theorem setLogLevel_other_loggers (s : BunyanLoggerServer)
    (name name' : string) (logLevel : Z) :
  name' ≠ name →
  (getLogLevel name' (setLogLevel name logLevel s).2).1 = (getLogLevel name' s).1.
Proof.
  intros Hne. unfold Logger.setLogLevel, Logger.getLogLevel.
  destruct (loggers s !! name) as [logger |]; [| done].
  destruct (Z.eqb_spec (toLogLevel (level logger)) logLevel); [done |].
  destruct s as [ls [c |] cl dl bk]; cbn;
    rewrite lookup_insert_ne by (by apply not_eq_sym);
    by destruct (ls !! name').
Qed.

(** [setLogLevel] with a level of the enumeration, called a second time,
    does nothing: no change and no notification. *)
Theorem setLogLevel_twice (s s' : BunyanLoggerServer) (name : string)
    (logLevel : Z) :
  NoDup (level_values LogLevel) → NoDup (level_values bunyan) →
  logLevel ∈ level_values LogLevel →
  setLogLevel name logLevel s = (Resolves tt, s') →
  setLogLevel name logLevel s' = (Resolves tt, s').
Proof.
  intros HL HB Hin. unfold Logger.setLogLevel.
  destruct (loggers s !! name) as [logger |] eqn:Hl; [| done].
  destruct (Z.eqb_spec (toLogLevel (level logger)) logLevel) as [E | Hne].
  - intros [= <-]. rewrite Hl. by rewrite E, Z.eqb_refl.
  - intros [= <-].
    destruct s as [ls [c |] cl dl bk]; cbn; rewrite lookup_insert_eq; cbn;
      by rewrite (toLogLevel_toBunyanLevel LogLevel bunyan), Z.eqb_refl.
Qed.

(** [setLogLevel] with a number that is no level of the enumeration sets
    the logger to bunyan's INFO and notifies, on every call, also when the
    logger is at INFO already. *)
Theorem setLogLevel_out_of_range (s : BunyanLoggerServer) (name : string)
    (logger : bunyan_logger) (logLevel : Z) :
  loggers s !! name = Some logger →
  logLevel ∉ level_values LogLevel →
  ∃ s', setLogLevel name logLevel s = (Resolves tt, s') ∧
    loggers s' !! name = Some {| logger_field := logger_field logger;
                                 level := INFO bunyan |} ∧
    ∃ e, newLogLevel e = logLevel ∧
         watcher_events (delivered s') = watcher_events (delivered s) ++ [e].
Proof.
  intros Hl Hout. unfold Logger.setLogLevel. rewrite Hl.
  destruct (Z.eqb_spec (toLogLevel (level logger)) logLevel) as [E | Hne].
  { destruct Hout. rewrite <- E. apply conversions_in_range. }
  eexists. split; [reflexivity |].
  assert (toBunyanLevel logLevel = INFO bunyan) as ->.
  { rewrite elem_of_level_values in Hout.
    unfold Logger.toBunyanLevel. split_eqb; try reflexivity; tauto. }
  destruct s as [ls [c |] cl dl bk]; cbn; rewrite lookup_insert_eq;
    (split; [done |]);
    eexists; (split; [| unfold watcher_events; rewrite !omap_app;
                        by rewrite <- ?app_assoc]); done.
Qed.

Lemma serve_app (rs rs' : list request) (s : BunyanLoggerServer) :
  serve (rs ++ rs') s = serve rs' (serve rs s).
Proof. apply foldl_app. Qed.

(** The client is told nothing that the watcher is not told: the events
    handed to the client are, in order, among those handed to the
    watcher. *)
Theorem client_events_among_watcher_events (c : LogLevelCliContribution)
    (rs : list request) :
  client_events (delivered (serve rs (init c)))
    `sublist_of` watcher_events (delivered (serve rs (init c))).
Proof.
  induction rs as [| r rs IH] using rev_ind; [done |].
  rewrite serve_app. cbn.
  destruct (perform_delivers (serve rs (init c)) r)
    as [-> | (logger & e & _ & _ & _ & _ & ->)]; [done |].
  unfold client_events, watcher_events in *. rewrite !omap_app.
  apply sublist_app; [done |].
  destruct (client _); cbn; [done | by apply sublist_nil_l].
Qed.

(** Every event that has been sent is a change: it names a logger of the
    registry, its old level is a level of the enumeration, and its new
    level is another number. *)
Theorem sent_events_are_changes (c : LogLevelCliContribution)
    (rs : list request) (e : ILogLevelChangedEvent) :
  e ∈ watcher_events (delivered (serve rs (init c))) →
  is_Some (loggers (serve rs (init c)) !! loggerName e) ∧
  oldLogLevel e ∈ level_values LogLevel ∧
  oldLogLevel e ≠ newLogLevel e.
Proof.
  revert e. induction rs as [| r rs IH] using rev_ind; intros e.
  { cbn. by intros ?%elem_of_nil. }
  rewrite serve_app. cbn.
  destruct (perform_delivers (serve rs (init c)) r)
    as [-> | (logger & e' & _ & Hl & Hold & Hne & ->)].
  - intros He. destruct (IH e He) as (Hreg & Hin & Hch).
    split; [by apply perform_keeps_loggers | done].
  - unfold watcher_events. rewrite omap_app.
    intros [He | He]%elem_of_app.
    + destruct (IH e He) as (Hreg & Hin & Hch).
      split; [by apply perform_keeps_loggers | done].
    + assert (e = e') as ->.
      { destruct (client _); cbn in He;
          by apply list_elem_of_singleton in He. }
      split; [apply perform_keeps_loggers; by eexists |].
      split; [| done]. rewrite Hold. apply conversions_in_range.
Qed.

(** Only [setLogLevel] notifies: calls of the other methods send
    nothing. *)
Theorem only_setLogLevel_notifies (rs : list request) (s : BunyanLoggerServer) :
  (∀ name logLevel, Call_setLogLevel name logLevel ∉ rs) →
  delivered (serve rs s) = delivered s.
Proof.
  revert s. induction rs as [| r rs IH]; intros s Hrs; [done |].
  change (delivered (serve rs (perform s r)) = delivered s). rewrite IH.
  - destruct (perform_delivers s r) as [-> | (logger & e & -> & _)]; [done |].
    destruct (Hrs (loggerName e) (newLogLevel e)). by left.
  - intros name l Hin. apply (Hrs name l). by right.
Qed.

End ServerLaws.

(** ** Further properties of the startup arguments *)

Section SetArgumentsLaws.

Context (LogLevel : LevelTable)
        (fromString : value → option Z)
        (readFileSync : string → result string)
        (JSON_parse : string → result value)
        (ToString : value → string)
        (in_TypeError : string → value → string)
        (keys_TypeError : value → string).

#[local] Abbreviation each_logger := (Logger.each_logger fromString ToString).
#[local] Abbreviation read_levels_file :=
  (Logger.read_levels_file fromString readFileSync JSON_parse ToString
     in_TypeError keys_TypeError).
#[local] Abbreviation setArguments :=
  (Logger.setArguments fromString readFileSync JSON_parse ToString
     in_TypeError keys_TypeError).
#[local] Abbreviation valid_level := (Logger.valid_level fromString).
#[local] Abbreviation levels_of := (Logger.levels_of fromString).
#[local] Abbreviation well_formed := (Logger.well_formed fromString).
#[local] Abbreviation typed := (Logger.typed LogLevel).

(** [fromString] answers levels of the enumeration only. *)
Hypothesis fromString_level :
  ∀ v l, fromString v = Some l → l ∈ level_values LogLevel.

Lemma typed_set_default (c : LogLevelCliContribution) (v : value) (l : Z) :
  fromString v = Some l → typed c →
  typed {| logLevels := logLevels c; defaultLogLevel := l |}.
Proof. intros Hl [_ Hm]. split; [by eapply fromString_level | done]. Qed.

Lemma each_logger_typed (filename : string) (es : list (string * value))
    (c : LogLevelCliContribution) :
  typed c → typed (each_logger filename es c).2.
Proof.
  revert c. induction es as [| [k v] es IH]; intros c Hc; [done |].
  cbn. unfold Logger.readLogLevelString.
  destruct (fromString v) as [l |] eqn:Hl; [| done].
  apply IH. destruct Hc as [Hd Hm]. split; [done |]. cbn.
  destruct (k =? "__proto__")%string; [done |].
  apply map_Forall_insert_2; [by eapply fromString_level | done].
Qed.

Lemma read_levels_file_typed (filename : string) (c : LogLevelCliContribution) :
  typed c → typed (read_levels_file filename c).2.
Proof.
  intros Hc. unfold Logger.read_levels_file, bind, lift.
  destruct (readFileSync filename) as [e | content]; [done |].
  destruct (JSON_parse content) as [e | data]; [done |].
  destruct (has_property in_TypeError "default" data) as [e | hasDefault];
    [done |].
  assert (∀ c', typed c' →
            typed (let (r, c'') := @ret unit tt c' in
                   match r with
                   | Thrown e => (Thrown e, c'')
                   | Returned _ =>
                     match has_property in_TypeError "loggers" data with
                     | Thrown e => (Thrown e, c'')
                     | Returned a =>
                       (if a
                        then match own_entries (default VUndefined
                                                  (member "loggers" data)) with
                             | Some es => each_logger filename es
                             | None => throw (keys_TypeError
                                                (default VUndefined
                                                   (member "loggers" data)))
                             end
                        else ret tt) c''
                     end
                   end).2) as Hrest.
  { intros c' Hc'. cbn.
    destruct (has_property in_TypeError "loggers" data) as [e | [|]];
      [done | | done].
    destruct (own_entries _); [by apply each_logger_typed | done]. }
  destruct hasDefault; [| exact (Hrest c Hc)].
  unfold Logger.readLogLevelString.
  destruct (fromString _) as [l |] eqn:Hl; [| done].
  cbn. apply (Hrest {| logLevels := logLevels c; defaultLogLevel := l |}).
  by eapply typed_set_default.
Qed.

(** When [fromString] answers levels of the enumeration only,
    [setArguments] keeps the fields typed: after it has returned, and also
    after it has thrown, the default and every level of the mapping are
    levels of the enumeration. *)
Theorem setArguments_typed (args : Arguments) (c : LogLevelCliContribution) :
  typed c → typed (setArguments args c).2.
Proof.
  intros Hc. unfold Logger.setArguments.
  destruct args as [[l |] [f |]]; cbn; [done | | | done].
  - unfold Logger.readLogLevelString.
    destruct (fromString (VStr l)) as [level |] eqn:Hl; [| done].
    by eapply typed_set_default.
  - unfold try_catch.
    pose proof (read_levels_file_typed f c Hc) as H.
    by destruct (read_levels_file f c) as [[e | []] c'].
Qed.

Lemma levels_of_cons (k : string) (v : value) (es : list (string * value))
    (m : gmap string Z) :
  levels_of ((k, v) :: es) m
    = levels_of es match fromString v with
                   | Some l => if (k =? "__proto__")%string then m
                               else <[k := l]> m
                   | None => m
                   end.
Proof. reflexivity. Qed.

Lemma levels_of_other (es : list (string * value)) (m : gmap string Z)
    (k : string) :
  k ∉ es.*1 → levels_of es m !! k = m !! k.
Proof.
  revert m. induction es as [| [k' v'] es IH]; intros m Hk; [done |].
  cbn in Hk. apply not_elem_of_cons in Hk as [Hne Hk].
  rewrite levels_of_cons, IH by done.
  destruct (fromString v'); [| done].
  destruct (k' =? "__proto__")%string; [done |].
  by rewrite lookup_insert_ne.
Qed.

Lemma levels_of_proto (es : list (string * value)) (m : gmap string Z) :
  levels_of es m !! "__proto__" = m !! "__proto__".
Proof.
  revert m. induction es as [| [k' v'] es IH]; intros m; [done |].
  rewrite levels_of_cons, IH.
  destruct (fromString v'); [| done].
  destruct (String.eqb_spec k' "__proto__"); [done |].
  by rewrite lookup_insert_ne.
Qed.

Lemma levels_of_entry (es : list (string * value)) (m : gmap string Z)
    (k : string) (v : value) :
  NoDup es.*1 → Forall (λ e, valid_level e.2) es →
  (k, v) ∈ es → k ≠ "__proto__" → levels_of es m !! k = fromString v.
Proof.
  revert m. induction es as [| [k' v'] es IH]; intros m Hnd Hvalid Hin Hk.
  { by apply elem_of_nil in Hin. }
  cbn in Hnd. apply NoDup_cons in Hnd as [Hk' Hnd].
  apply Forall_cons in Hvalid as [[l Hl] Hvalid]. cbn in Hl.
  rewrite levels_of_cons, Hl.
  apply elem_of_cons in Hin as [[= -> ->] | Hin].
  - rewrite levels_of_other by done.
    destruct (String.eqb_spec k' "__proto__"); [done |].
    by rewrite lookup_insert_eq.
  - by apply IH.
Qed.

(** After a well-formed file whose [loggers] has each key once, every
    entry, except one called [__proto__], is in the mapping with the level
    of its string, and the names the file does not mention are mapped as
    before. *)
Theorem file_levels_are_stored (c : LogLevelCliContribution)
    (f content : string) (ps es : list (string * value)) :
  readFileSync f = Returned content →
  JSON_parse content = Returned (VObj ps) →
  well_formed ps es → NoDup es.*1 →
  let c' := (setArguments {| log_level := None; log_levels_file := Some f |} c).2 in
  (∀ k v, (k, v) ∈ es → k ≠ "__proto__" → logLevels c' !! k = fromString v) ∧
  (∀ k, k ∉ es.*1 → logLevels c' !! k = logLevels c !! k) ∧
  logLevels c' !! "__proto__" = logLevels c !! "__proto__".
Proof.
  intros Hread Hparse Hwf Hnd c'. subst c'.
  unfold Logger.setArguments. cbn. unfold try_catch.
  rewrite (read_levels_file_well_formed fromString readFileSync JSON_parse
             ToString in_TypeError keys_TypeError _ _ _ _ _ Hread Hparse Hwf).
  cbn. destruct Hwf as (_ & _ & Hvalid). split; [| split].
  - intros k v Hin Hk. by apply levels_of_entry.
  - apply levels_of_other.
  - apply levels_of_proto.
Qed.

Lemma each_logger_invalid_state (filename : string)
    (good rest : list (string * value)) (k : string) (v : value)
    (c : LogLevelCliContribution) :
  Forall (λ e, valid_level e.2) good → fromString v = None →
  (each_logger filename (good ++ (k, v) :: rest) c).2
    = {| logLevels := levels_of good (logLevels c);
         defaultLogLevel := defaultLogLevel c |}.
Proof.
  intros Hgood Hv. revert c.
  induction Hgood as [| [k' v'] good [l Hl] _ IH]; intros c.
  - cbn. unfold Logger.readLogLevelString. rewrite Hv. by destruct c.
  - cbn in Hl. cbn. unfold Logger.readLogLevelString at 1. rewrite Hl.
    rewrite IH. cbn. rewrite ?Hl. reflexivity.
Qed.

(** A file that fails at a logger entry has been read up to there: when
    [setArguments] throws, the default of the file and the entries in
    front of the bad one are already in the fields. *)
Theorem failed_file_keeps_what_was_read (c : LogLevelCliContribution)
    (f content : string) (ps good rest : list (string * value))
    (d loggers v : value) (ld : Z) (k : string) :
  readFileSync f = Returned content →
  JSON_parse content = Returned (VObj ps) →
  assoc "default" ps = Some d → fromString d = Some ld →
  assoc "loggers" ps = Some loggers →
  own_entries loggers = Some (good ++ (k, v) :: rest) →
  Forall (λ e, valid_level e.2) good → fromString v = None →
  ∃ message,
    setArguments {| log_level := None; log_levels_file := Some f |} c
      = (Thrown message,
         {| logLevels := levels_of good (logLevels c); defaultLogLevel := ld |}).
Proof.
  intros Hread Hparse Hd Hld Hlg Hes Hgood Hv.
  unfold Logger.setArguments, try_catch, Logger.read_levels_file, bind, lift.
  cbn. rewrite Hread, Hparse. cbn. rewrite Hd, Hlg. cbn.
  unfold Logger.readLogLevelString at 1. rewrite Hld. cbn. rewrite Hes.
  pose proof (each_logger_invalid fromString ToString f good rest k v
                {| logLevels := logLevels c; defaultLogLevel := ld |}
                Hgood Hv) as H1.
  pose proof (each_logger_invalid_state f good rest k v
                {| logLevels := logLevels c; defaultLogLevel := ld |}
                Hgood Hv) as H2.
  destruct (each_logger _ _ _) as [[e | []] c']; cbn in H1, H2;
    [| discriminate]. subst c'. by eexists.
Qed.

End SetArgumentsLaws.

(** ** The further properties at work *)

Lemma conversions_round_trip_witness :
  Logger.toLogLevel levels_10_60 levels_10_60
    (Logger.toBunyanLevel levels_10_60 levels_10_60 20) = 20 ∧
  Logger.toBunyanLevel levels_10_60 levels_10_60
    (Logger.toLogLevel levels_10_60 levels_10_60 60) = 60.
Proof.
  destruct (conversions_round_trip levels_10_60 levels_10_60 20 60
              NoDup_levels_10_60 NoDup_levels_10_60) as [Hl Hb].
  split; [apply Hl | apply Hb]; apply elem_of_level_values; cbn; tauto.
Defined.

Lemma registered_stays_registered_witness :
  is_Some (loggers (serve levels_10_60 levels_10_60 root
                      [Call_child "task"; Call_setLogLevel root 50;
                       Call_log "task" 20 "m" []] deployed) !! root).
Proof.
  apply registered_stays_registered. by eexists.
Defined.

Lemma child_registers_witness :
  ∃ s', Logger.child levels_10_60 levels_10_60 root "task" deployed
          = (Resolves tt, s') ∧
        (∃ l, Logger.getLogLevel levels_10_60 levels_10_60 "task" s'
                = (Resolves l, s')) ∧
        Logger.child levels_10_60 levels_10_60 root "task" s' = (Resolves tt, s').
Proof.
  eexists. split; [reflexivity |].
  destruct (child_registers levels_10_60 levels_10_60 root deployed _ "task"
              eq_refl) as (Hget & Hchild & _).
  split; [exact Hget | exact Hchild].
Defined.

Lemma setLogLevel_other_loggers_witness :
  let s := serve levels_10_60 levels_10_60 root [Call_child "task"] deployed in
  (Logger.getLogLevel levels_10_60 levels_10_60 root
     (Logger.setLogLevel levels_10_60 levels_10_60 "task" 10 s).2).1
  = Resolves 30.
Proof.
  intros s.
  rewrite (setLogLevel_other_loggers levels_10_60 levels_10_60 s "task" root 10);
    [reflexivity | discriminate].
Defined.

Lemma setLogLevel_twice_witness :
  ∃ s', Logger.setLogLevel levels_10_60 levels_10_60 root 20 deployed
          = (Resolves tt, s') ∧
        delivered s' ≠ [] ∧
        Logger.setLogLevel levels_10_60 levels_10_60 root 20 s' = (Resolves tt, s').
Proof.
  eexists. split; [reflexivity |]. split; [discriminate |].
  apply (setLogLevel_twice levels_10_60 levels_10_60 deployed _ root 20
           NoDup_levels_10_60 NoDup_levels_10_60); [| reflexivity].
  apply elem_of_level_values. cbn. tauto.
Defined.

(** The root logger is at INFO; asking for level 35 notifies all the
    same. *)
Lemma setLogLevel_out_of_range_witness :
  ∃ s' e, Logger.setLogLevel levels_10_60 levels_10_60 root 35 deployed
            = (Resolves tt, s') ∧
          loggers s' !! root = Some {| logger_field := root; level := 30 |} ∧
          newLogLevel e = 35 ∧ watcher_events (delivered s') = [e].
Proof.
  destruct (setLogLevel_out_of_range levels_10_60 levels_10_60 deployed root
              {| logger_field := root; level := 30 |} 35 eq_refl)
    as (s' & Hset & Hl & e & He & Hw).
  { rewrite elem_of_level_values. cbn. lia. }
  exists s', e. by repeat split.
Defined.

Lemma sent_events_are_changes_witness :
  let e := {| loggerName := root; oldLogLevel := 30; newLogLevel := 20 |} in
  oldLogLevel e ∈ level_values levels_10_60 ∧ oldLogLevel e ≠ newLogLevel e.
Proof.
  intros e.
  destruct (sent_events_are_changes levels_10_60 levels_10_60 root
              (new_cli levels_10_60) [Call_setLogLevel root 20] e)
    as (_ & Hin & Hne); [| by split].
  cbn. by left.
Defined.

Lemma only_setLogLevel_notifies_witness :
  delivered (serve levels_10_60 levels_10_60 root
               [Call_child "task"; Call_setClient (Some 7%nat);
                Call_log "task" 20 "m" []; Call_getLogLevel "task"] deployed)
  = [].
Proof.
  rewrite only_setLogLevel_notifies; [reflexivity |].
  intros name l Hin. repeat (apply elem_of_cons in Hin as [[=] | Hin]).
  by apply elem_of_nil in Hin.
Defined.

Lemma fromString_lower_level (T : LevelTable) (v : value) (l : Z) :
  fromString_lower T v = Some l → l ∈ level_values T.
Proof.
  destruct v; try discriminate. cbn.
  repeat case_match; intros [= <-]; apply elem_of_level_values; tauto.
Qed.

Lemma setArguments_typed_witness :
  typed levels_10_60
    (Logger.setArguments (fromString_lower levels_10_60) disk parse show
       (λ _ _, "TypeError") (λ _, "TypeError")
       {| log_level := None; log_levels_file := Some "levels.json" |}
       (new_cli levels_10_60)).2.
Proof.
  apply setArguments_typed; [apply fromString_lower_level |].
  split; [apply elem_of_level_values; cbn; tauto |].
  apply map_Forall_empty.
Defined.

Lemma file_levels_are_stored_witness :
  let c' := (Logger.setArguments (fromString_lower levels_10_60) disk parse show
               (λ _ _, "TypeError") (λ _, "TypeError")
               {| log_level := None; log_levels_file := Some "levels.json" |}
               {| logLevels := {[ "task" := 10 ]}; defaultLogLevel := 30 |}).2 in
  logLevels c' !! "world" = Some 60 ∧ logLevels c' !! "task" = Some 10.
Proof.
  intros c'.
  destruct (file_levels_are_stored (fromString_lower levels_10_60) disk parse
              show (λ _ _, "TypeError") (λ _, "TypeError")
              {| logLevels := {[ "task" := 10 ]}; defaultLogLevel := 30 |}
              "levels.json" "hello-debug-world-fatal" _
              [("hello", VStr "debug"); ("world", VStr "fatal")]
              eq_refl eq_refl) as (Hin & Hout & _).
  - split; [| split].
    + intros v [= <-]. by eexists.
    + reflexivity.
    + repeat constructor; by eexists.
  - compute_done.
  - split.
    + apply (Hin "world" (VStr "fatal")); [| discriminate].
      apply elem_of_cons. right. by left.
    + etrans; [apply (Hout "task"); compute_done | reflexivity].
Defined.

(** A file with the default [warn], the entry [hello: debug] and then the
    entry [world: potato]. *)
Lemma failed_file_keeps_what_was_read_witness :
  ∃ message,
    Logger.setArguments (fromString_lower levels_10_60)
      (λ _, Returned "text")
      (λ _, Returned (VObj [ ("default", VStr "warn");
                             ("loggers", VObj [ ("hello", VStr "debug");
                                                ("world", VStr "potato") ]) ]))
      show (λ _ _, "TypeError") (λ _, "TypeError")
      {| log_level := None; log_levels_file := Some "levels.json" |}
      (new_cli levels_10_60)
    = (Thrown message,
       {| logLevels := {[ "hello" := 20 ]}; defaultLogLevel := 40 |}).
Proof.
  apply (failed_file_keeps_what_was_read (fromString_lower levels_10_60)
           (λ _, Returned "text") _ show (λ _ _, "TypeError") (λ _, "TypeError")
           (new_cli levels_10_60) "levels.json" "text"
           [ ("default", VStr "warn");
             ("loggers", VObj [ ("hello", VStr "debug");
                                ("world", VStr "potato") ]) ]
           [("hello", VStr "debug")] [] (VStr "warn")
           (VObj [ ("hello", VStr "debug"); ("world", VStr "potato") ])
           (VStr "potato") 40
           "world" eq_refl eq_refl eq_refl eq_refl eq_refl eq_refl);
    [| reflexivity].
  repeat constructor. by eexists.
Defined.

End LoggerFacts.

(** * Properties of the document watcher *)

Module EditorconfigFacts.

Import Editorconfig.

Lemma is_str_eq (lit : string) (v : value) :
  is_str lit v = true ↔ v = VStr lit.
Proof.
  destruct v; cbn; try (split; [discriminate | by intros [=]]).
  rewrite String.eqb_eq. split; [by intros -> | by intros [= ->]].
Qed.

(** [isSet] holds for exactly the truthy values other than ['unset']. *)
Lemma isSet_true (v : value) :
  isSet v = true ↔ truthy v = true ∧ v ≠ VStr "unset".
Proof.
  unfold isSet. destruct (truthy v); cbn.
  - destruct (is_str "unset" v) eqn:E.
    + apply is_str_eq in E. split; [discriminate | tauto].
    + split; [| done]. intros _. split; [done |].
      intros Hv. apply is_str_eq in Hv. congruence.
  - split; [discriminate | intros [? _]; discriminate].
Qed.

Lemma isSet_falsy (v : value) : truthy v = false → isSet v = false.
Proof. unfold isSet. by intros ->. Qed.

Lemma isSet_unset : isSet (VStr "unset") = false.
Proof. reflexivity. Qed.

(** A value that is not set is neither [true] nor ['crlf']. *)
Lemma not_set_reads (v : value) :
  isSet v = false → is_true v = false ∧ is_str "crlf" v = false.
Proof.
  intros Hv. split.
  - destruct v as [| | [|] | | | |]; try reflexivity. discriminate Hv.
  - destruct (is_str "crlf" v) eqn:E; [| reflexivity].
    apply is_str_eq in E. subst v. discriminate Hv.
Qed.

Section Watcher.

Context (trimTrailingWhitespace : buffer → buffer)
        (cursorAfterEdit : edit → Position → Position).

#[local] Abbreviation ensureTrimTrailingWhitespace :=
  (Editorconfig.ensureTrimTrailingWhitespace trimTrailingWhitespace).
#[local] Abbreviation ensureEndsWithNewLine :=
  (Editorconfig.ensureEndsWithNewLine cursorAfterEdit).
#[local] Abbreviation applyProperties :=
  (Editorconfig.applyProperties trimTrailingWhitespace cursorAfterEdit).
#[local] Abbreviation onWillSaveModel :=
  (Editorconfig.onWillSaveModel trimTrailingWhitespace cursorAfterEdit).

(** What each step leaves alone. *)
Lemma ensureIndentStyle_frame (p : KnownProps) (e : MonacoEditor) :
  let e' := ensureIndentStyle p e in
  tabSize e' = tabSize e ∧ EOL e' = EOL e ∧
  executedCommands e' = executedCommands e ∧ appliedEdits e' = appliedEdits e.
Proof. unfold ensureIndentStyle. by repeat case_match. Qed.

Lemma ensureIndentSize_frame (p : KnownProps) (e : MonacoEditor) :
  let e' := ensureIndentSize p e in
  insertSpaces e' = insertSpaces e ∧ EOL e' = EOL e ∧
  executedCommands e' = executedCommands e ∧ appliedEdits e' = appliedEdits e.
Proof. unfold ensureIndentSize, ensureTabWidth. by repeat case_match. Qed.

Lemma ensureEndOfLine_frame (p : KnownProps) (e : MonacoEditor) :
  let e' := ensureEndOfLine p e in
  insertSpaces e' = insertSpaces e ∧ tabSize e' = tabSize e ∧
  executedCommands e' = executedCommands e ∧ appliedEdits e' = appliedEdits e.
Proof. unfold ensureEndOfLine. by repeat case_match. Qed.

Lemma ensureTrimTrailingWhitespace_frame (p : KnownProps) (e : MonacoEditor) :
  let e' := ensureTrimTrailingWhitespace p e in
  insertSpaces e' = insertSpaces e ∧ tabSize e' = tabSize e ∧
  EOL e' = EOL e ∧ appliedEdits e' = appliedEdits e.
Proof. unfold Editorconfig.ensureTrimTrailingWhitespace. by repeat case_match. Qed.

Lemma ensureEndsWithNewLine_frame (p : KnownProps) (e : MonacoEditor) :
  let e' := ensureEndsWithNewLine p e in
  insertSpaces e' = insertSpaces e ∧ tabSize e' = tabSize e ∧
  EOL e' = EOL e ∧ executedCommands e' = executedCommands e.
Proof. unfold Editorconfig.ensureEndsWithNewLine. by repeat case_match. Qed.

(** Without a number in [indent_size] and without a [tab_width] that is
    set, [ensureIndentSize] does nothing. *)
Lemma ensureIndentSize_no_width (p : KnownProps) (e : MonacoEditor) :
  isSet (tab_width p) = false → isNumber (indent_size p) = None →
  ensureIndentSize p e = e.
Proof.
  intros Hw Hn. unfold ensureIndentSize. rewrite Hw, Hn. by case_match.
Qed.

(** A step behind a guard leaves alone what the step leaves alone. *)
Lemma guarded_frame {A} (f : MonacoEditor → A) (b : bool)
    (g : MonacoEditor → MonacoEditor) (e : MonacoEditor) :
  f (g e) = f e → f (if b then g e else e) = f e.
Proof. by destruct b. Qed.

Ltac guarded lem :=
  repeat split; apply guarded_frame; apply lem.

(** A property that is not set has not had its edit after
    [applyProperties]. *)
Lemma not_set_untouched (k : key) (p : KnownProps) (e : MonacoEditor) :
  isSet (get k p) = false → untouched k p e (applyProperties p e).
Proof.
  intros Hk. unfold Editorconfig.applyProperties.
  set (e1 := if isSet (indent_style p) then ensureIndentStyle p e else e).
  set (e2 := if isSet (indent_size p) then ensureIndentSize p e1 else e1).
  set (e3 := if isSet (end_of_line p) then ensureEndOfLine p e2 else e2).
  set (e4 := if isSet (trim_trailing_whitespace p)
             then ensureTrimTrailingWhitespace p e3 else e3).
  set (e5 := if isSet (insert_final_newline p)
             then ensureEndsWithNewLine p e4 else e4).
  assert (tabSize e1 = tabSize e ∧ EOL e1 = EOL e ∧
          executedCommands e1 = executedCommands e ∧
          appliedEdits e1 = appliedEdits e) as (A1 & A2 & A3 & A4)
    by guarded ensureIndentStyle_frame.
  assert (insertSpaces e2 = insertSpaces e1 ∧ EOL e2 = EOL e1 ∧
          executedCommands e2 = executedCommands e1 ∧
          appliedEdits e2 = appliedEdits e1) as (B1 & B2 & B3 & B4)
    by guarded ensureIndentSize_frame.
  assert (insertSpaces e3 = insertSpaces e2 ∧ tabSize e3 = tabSize e2 ∧
          executedCommands e3 = executedCommands e2 ∧
          appliedEdits e3 = appliedEdits e2) as (C1 & C2 & C3 & C4)
    by guarded ensureEndOfLine_frame.
  assert (insertSpaces e4 = insertSpaces e3 ∧ tabSize e4 = tabSize e3 ∧
          EOL e4 = EOL e3 ∧ appliedEdits e4 = appliedEdits e3)
    as (D1 & D2 & D3 & D4)
    by guarded ensureTrimTrailingWhitespace_frame.
  assert (insertSpaces e5 = insertSpaces e4 ∧ tabSize e5 = tabSize e4 ∧
          EOL e5 = EOL e4 ∧ executedCommands e5 = executedCommands e4)
    as (E1 & E2 & E3 & E4)
    by guarded ensureEndsWithNewLine_frame.
  assert (isSet (indent_style p) = false → e1 = e) as O1
    by (intros H; subst e1; by rewrite H).
  assert (isSet (indent_size p) = false → e2 = e1) as O2
    by (intros H; subst e2; by rewrite H).
  assert (isSet (tab_width p) = false → isNumber (indent_size p) = None →
          e2 = e1) as O2'
    by (intros H H'; subst e2; rewrite ensureIndentSize_no_width by done;
        by case_match).
  assert (isSet (end_of_line p) = false → e3 = e2) as O3
    by (intros H; subst e3; by rewrite H).
  assert (isSet (trim_trailing_whitespace p) = false → e4 = e3) as O4
    by (intros H; subst e4; by rewrite H).
  assert (isSet (insert_final_newline p) = false → e5 = e4) as O5
    by (intros H; subst e5; by rewrite H).
  clearbody e1 e2 e3 e4 e5.
  destruct k; cbn in Hk; cbn; try intros Hnum.
  - rewrite (O1 Hk) in *. congruence.
  - rewrite (O2 Hk) in *. congruence.
  - rewrite (O2' Hk Hnum) in *. congruence.
  - rewrite (O3 Hk) in *. congruence.
  - rewrite (O4 Hk) in *. congruence.
  - rewrite (O5 Hk) in *. congruence.
Qed.

(** The same for the handler run before a save. *)
Lemma not_set_untouched_on_save (k : key) (p : KnownProps) (e : MonacoEditor) :
  isSet (get k p) = false → untouched k p e (onWillSaveModel p e).
Proof.
  intros Hk. unfold Editorconfig.onWillSaveModel.
  set (e4 := if isSet (trim_trailing_whitespace p)
             then ensureTrimTrailingWhitespace p e else e).
  set (e5 := if isSet (insert_final_newline p)
             then ensureEndsWithNewLine p e4 else e4).
  assert (insertSpaces e4 = insertSpaces e ∧ tabSize e4 = tabSize e ∧
          EOL e4 = EOL e ∧ appliedEdits e4 = appliedEdits e)
    as (D1 & D2 & D3 & D4)
    by guarded ensureTrimTrailingWhitespace_frame.
  assert (insertSpaces e5 = insertSpaces e4 ∧ tabSize e5 = tabSize e4 ∧
          EOL e5 = EOL e4 ∧ executedCommands e5 = executedCommands e4)
    as (E1 & E2 & E3 & E4)
    by guarded ensureEndsWithNewLine_frame.
  assert (isSet (trim_trailing_whitespace p) = false → e4 = e) as O4
    by (intros H; subst e4; by rewrite H).
  assert (isSet (insert_final_newline p) = false → e5 = e4) as O5
    by (intros H; subst e5; by rewrite H).
  clearbody e4 e5.
  destruct k; cbn in Hk; cbn; try intros Hnum; try congruence.
  - rewrite (O4 Hk) in *. congruence.
  - rewrite (O5 Hk) in *. congruence.
Qed.

(** Two values that are not set are interchangeable under any key. *)
Lemma applyProperties_not_set (k : key) (v w : value) (p : KnownProps)
    (e : MonacoEditor) :
  isSet v = false → isSet w = false →
  applyProperties (set k v p) e = applyProperties (set k w p) e.
Proof.
  intros Hv Hw.
  destruct (not_set_reads v Hv) as [Tv Cv], (not_set_reads w Hw) as [Tw Cw].
  destruct k;
    unfold Editorconfig.applyProperties, ensureIndentStyle, ensureIndentSize,
      ensureTabWidth, ensureEndOfLine,
      Editorconfig.ensureTrimTrailingWhitespace,
      Editorconfig.ensureEndsWithNewLine;
    cbn [set indent_style indent_size tab_width end_of_line
         trim_trailing_whitespace insert_final_newline];
    rewrite ?Hv, ?Hw, ?Tv, ?Tw, ?Cv, ?Cw; reflexivity.
Qed.

Lemma onWillSaveModel_not_set (k : key) (v w : value) (p : KnownProps)
    (e : MonacoEditor) :
  isSet v = false → isSet w = false →
  onWillSaveModel (set k v p) e = onWillSaveModel (set k w p) e.
Proof.
  intros Hv Hw.
  destruct (not_set_reads v Hv) as [Tv Cv], (not_set_reads w Hw) as [Tw Cw].
  destruct k;
    unfold Editorconfig.onWillSaveModel,
      Editorconfig.ensureTrimTrailingWhitespace,
      Editorconfig.ensureEndsWithNewLine;
    cbn [set indent_style indent_size tab_width end_of_line
         trim_trailing_whitespace insert_final_newline];
    rewrite ?Hv, ?Hw, ?Tv, ?Tw, ?Cv, ?Cw; reflexivity.
Qed.

Lemma set_get (k : key) (p : KnownProps) : set k (get k p) p = p.
Proof. by destruct k, p. Qed.

Lemma get_set (k : key) (v : value) (p : KnownProps) : get k (set k v p) = v.
Proof. by destruct k. Qed.

(** C4.  When a property has the value ['unset'], [applyProperties] does
    not make the edit of that property, and does to the editor exactly
    what it does when the property is missing: the other properties are
    applied as they are. *)
Theorem unset_property_is_skipped (k : key) (p : KnownProps)
    (e : MonacoEditor) :
  get k p = VStr "unset" →
  untouched k p e (applyProperties p e) ∧
  applyProperties p e = applyProperties (set k VUndefined p) e.
Proof.
  intros Hk. split.
  - apply not_set_untouched. by rewrite Hk.
  - rewrite <- (set_get k p) at 1. rewrite Hk.
    by apply applyProperties_not_set.
Qed.

(** C10.  [isSet] is false for every falsy value, and true exactly for the
    truthy values other than ['unset'].  Under any key a falsy value does
    what ['unset'] does, when the properties are applied and before a
    save, and the edit of that property is not made; an edit that has been
    made belongs to a property whose value is truthy and not ['unset']. *)
Theorem falsy_property_is_unset (k : key) (v : value) (p : KnownProps)
    (e : MonacoEditor) :
  (truthy v = false →
   isSet v = false ∧
   applyProperties (set k v p) e = applyProperties (set k (VStr "unset") p) e ∧
   onWillSaveModel (set k v p) e = onWillSaveModel (set k (VStr "unset") p) e ∧
   untouched k (set k v p) e (applyProperties (set k v p) e) ∧
   untouched k (set k v p) e (onWillSaveModel (set k v p) e)) ∧
  (isSet v = true ↔ truthy v = true ∧ v ≠ VStr "unset") ∧
  (¬ untouched k p e (applyProperties p e) →
   truthy (get k p) = true ∧ get k p ≠ VStr "unset") ∧
  (¬ untouched k p e (onWillSaveModel p e) →
   truthy (get k p) = true ∧ get k p ≠ VStr "unset").
Proof.
  split; [| split; [apply isSet_true | split]].
  - intros Hv. pose proof (isSet_falsy v Hv) as Hs.
    split; [done |]. split; [by apply applyProperties_not_set |].
    split; [by apply onWillSaveModel_not_set |].
    split; [apply not_set_untouched | apply not_set_untouched_on_save];
      by rewrite get_set.
  - intros Hedit. apply isSet_true.
    destruct (isSet (get k p)) eqn:E; [done |].
    destruct Hedit. by apply not_set_untouched.
  - intros Hedit. apply isSet_true.
    destruct (isSet (get k p)) eqn:E; [done |].
    destruct Hedit. by apply not_set_untouched_on_save.
Qed.

(** What [ensureEndsWithNewLine] does when [insert_final_newline] is
    [true]: with [content] the last line, cut at its last character that is
    no white space if [trim_trailing_whitespace] is [true], nothing if
    [content] is empty, and else one edit, which puts the line ending
    behind [content], after which the cursor is where it was. *)
Lemma ensureEndsWithNewLine_true (p : KnownProps) (e : MonacoEditor) :
  insert_final_newline p = VBool true →
  let content := if is_true (trim_trailing_whitespace p)
                 then trimRight (lastLine (document e))
                 else lastLine (document e) in
  let ed := {| startLineNumber := lineCount (document e);
               startColumn := length content + 1;
               endLineNumber := lineCount (document e);
               endColumn := length content + 1;
               text := if is_str "crlf" (end_of_line p)
                       then LINE_ENDING_CRLF else LINE_ENDING_LF;
               forceMoveMarkers := false |} in
  let e' := ensureEndsWithNewLine p e in
  (content = [] → e' = e) ∧
  (content ≠ [] →
   appliedEdits e' = appliedEdits e ++ [ed] ∧
   cursor e' = cursor e ∧
   document e' = {| linesBefore := linesBefore (document e)
                                   ++ [take (length content) (lastLine (document e))];
                    lastLine := drop (length content) (lastLine (document e)) |}).
Proof.
  intros Hnl content ed e'. subst e'.
  unfold Editorconfig.ensureEndsWithNewLine. rewrite Hnl. cbn [is_true].
  fold content. split.
  - by intros ->.
  - intros Hne. destruct content as [| c content'] eqn:E; [done |].
    cbn. unfold split_lastLine. cbn.
    by replace (length content' + 1 - 0)%nat with (S (length content')) by lia.
Qed.

End Watcher.

(** ** The properties at work *)

(** [indent_style: unset] next to five rules that are set: the tab/space
    option stays as it was, the other rules are applied. *)
Lemma unset_property_is_skipped_witness :
  let p := {| indent_style := VStr "unset"; indent_size := VNum 4;
              tab_width := VUndefined; end_of_line := VStr "crlf";
              trim_trailing_whitespace := VBool true;
              insert_final_newline := VBool true |} in
  let e := editor_with "abc" true in
  let e' := Editorconfig.applyProperties trim_all cursor_below p e in
  insertSpaces e' = insertSpaces e ∧
  e' = Editorconfig.applyProperties trim_all cursor_below
         (set k_indent_style VUndefined p) e ∧
  tabSize e' = 4 ∧ EOL e' = CRLF.
Proof.
  intros p e e'.
  destruct (unset_property_is_skipped trim_all cursor_below k_indent_style p e
              eq_refl) as [Hframe Heq].
  split; [exact Hframe |]. split; [exact Heq |]. split; reflexivity.
Defined.

(** [trim_trailing_whitespace: false] does what [unset] does, and no
    command is run. *)
Lemma falsy_property_is_unset_witness :
  let p := {| indent_style := VStr "space"; indent_size := VNum 2;
              tab_width := VUndefined; end_of_line := VStr "lf";
              trim_trailing_whitespace := VBool false;
              insert_final_newline := VBool true |} in
  let e := editor_with "abc  " true in
  Editorconfig.onWillSaveModel trim_all cursor_below p e
    = Editorconfig.onWillSaveModel trim_all cursor_below
        (set k_trim_trailing_whitespace (VStr "unset") p) e ∧
  executedCommands (Editorconfig.onWillSaveModel trim_all cursor_below p e) = [].
Proof.
  intros p e.
  destruct (falsy_property_is_unset trim_all cursor_below
              k_trim_trailing_whitespace (VBool false) p e) as [Hfalsy _].
  destruct (Hfalsy eq_refl) as (_ & _ & Hsave & _ & Hframe).
  split; [exact Hsave | exact Hframe].
Defined.

(** The cases of the tests of the repository. *)
Example isSet_value : isSet (VStr "value") = true.
Proof. reflexivity. Qed.

Example indent_size_tab_takes_tab_width :
  let p := set k_indent_size (VStr "tab") (set k_tab_width (VNum 4) no_properties) in
  tabSize (Editorconfig.applyProperties trim_all cursor_below p
             (editor_with "abc" true)) = 4.
Proof. reflexivity. Qed.

Example indent_size_tab_without_tab_width :
  let p := set k_indent_size (VStr "tab") no_properties in
  let e := editor_with "abc" true in
  Editorconfig.applyProperties trim_all cursor_below p e = e.
Proof. reflexivity. Qed.

Example no_properties_no_edit :
  let e := editor_with "abc  " true in
  Editorconfig.applyProperties trim_all cursor_below no_properties e = e.
Proof. reflexivity. Qed.

(** C9.  An editor that is not the current one is saved with both rules
    [true] and two blanks at the end of its last line [abc]: the trim
    command is not run, and the edit puts the line ending behind [abc], in
    front of the blanks.  The text then has the two lines [abc] and the
    blanks: the blanks are still there and the last line has no line
    ending. *)
Theorem final_newline_in_front_of_blanks :
  let p := set k_trim_trailing_whitespace (VBool true)
             (set k_insert_final_newline (VBool true) no_properties) in
  let e := editor_with "abc  " false in
  let e' := Editorconfig.onWillSaveModel trim_all cursor_below p e in
  executedCommands e' = [] ∧
  appliedEdits e' = [ {| startLineNumber := 1; startColumn := 4;
                         endLineNumber := 1; endColumn := 4;
                         text := LINE_ENDING_LF; forceMoveMarkers := false |} ] ∧
  document e' = {| linesBefore := [code_units "abc"];
                   lastLine := code_units "  " |} ∧
  document e' ≠ {| linesBefore := [code_units "abc"]; lastLine := [] |}.
Proof. by vm_compute. Qed.

(** The same save in the current editor, where the command has trimmed the
    line first: the text ends with the line ending. *)
Example final_newline_in_current_editor :
  let p := set k_trim_trailing_whitespace (VBool true)
             (set k_insert_final_newline (VBool true) no_properties) in
  let e := editor_with "abc  " true in
  let e' := Editorconfig.onWillSaveModel trim_all cursor_below p e in
  executedCommands e' = ["monaco.editor.action.trimTrailingWhitespace"] ∧
  document e' = {| linesBefore := [code_units "abc"]; lastLine := [] |} ∧
  cursor e' = cursor e.
Proof. by vm_compute. Qed.

(** ** Further properties of the watcher *)

Lemma drop_white_space_split (l : line) :
  ∃ ws, l = ws ++ drop_white_space l ∧ Forall (λ c, white_space c = true) ws.
Proof.
  induction l as [| c l (ws & Hl & Hws)]; [by exists [] |].
  cbn. destruct (white_space c) eqn:Hc.
  - exists (c :: ws). split; [by rewrite Hl at 1 | by constructor].
  - by exists [].
Qed.

Lemma drop_white_space_all (l : line) :
  Forall (λ c, white_space c = true) l → drop_white_space l = [].
Proof. induction 1 as [| c l Hc _ IH]; [done |]. cbn. by rewrite Hc. Qed.

(** A line is what [trimRight] makes of it, followed by white space. *)
Lemma trimRight_split (l : line) :
  ∃ ws, l = trimRight l ++ ws ∧ Forall (λ c, white_space c = true) ws.
Proof.
  destruct (drop_white_space_split (rev l)) as (ws & Hl & Hws).
  exists (rev ws). split; [| by apply List.Forall_rev].
  unfold trimRight. rewrite <- rev_app_distr, <- Hl. by rewrite rev_involutive.
Qed.

Lemma trimRight_white_space (l : line) :
  Forall (λ c, white_space c = true) l → trimRight l = [].
Proof.
  intros Hl. unfold trimRight.
  by rewrite drop_white_space_all by (by apply List.Forall_rev).
Qed.

Lemma trimRight_take (l : line) : take (length (trimRight l)) l = trimRight l.
Proof.
  destruct (trimRight_split l) as (ws & Hl & _).
  rewrite Hl at 2. by rewrite take_app_length.
Qed.

Lemma trimRight_drop (l : line) :
  trimRight (drop (length (trimRight l)) l) = [].
Proof.
  destruct (trimRight_split l) as (ws & Hl & Hws).
  rewrite Hl at 2. rewrite drop_app_length. by apply trimRight_white_space.
Qed.

Lemma trimRight_length (l : line) : (length (trimRight l) ≤ length l)%nat.
Proof.
  destruct (trimRight_split l) as (ws & Hl & _).
  rewrite Hl at 2. rewrite length_app. lia.
Qed.

Section WatcherLaws.

Context (trimTrailingWhitespace : buffer → buffer)
        (cursorAfterEdit : edit → Position → Position).

#[local] Abbreviation ensureTrimTrailingWhitespace :=
  (Editorconfig.ensureTrimTrailingWhitespace trimTrailingWhitespace).
#[local] Abbreviation ensureEndsWithNewLine :=
  (Editorconfig.ensureEndsWithNewLine cursorAfterEdit).
#[local] Abbreviation applyProperties :=
  (Editorconfig.applyProperties trimTrailingWhitespace cursorAfterEdit).
#[local] Abbreviation onWillSaveModel :=
  (Editorconfig.onWillSaveModel trimTrailingWhitespace cursorAfterEdit).

(** The content [ensureEndsWithNewLine] looks at. *)
#[local] Abbreviation content p e :=
  (if is_true (trim_trailing_whitespace p)
   then trimRight (lastLine (document e)) else lastLine (document e)).

Lemma content_take (p : KnownProps) (e : MonacoEditor) :
  take (length (content p e)) (lastLine (document e)) = content p e.
Proof.
  destruct (is_true _); [apply trimRight_take | by rewrite firstn_all].
Qed.

Lemma content_length (p : KnownProps) (e : MonacoEditor) :
  (length (content p e) ≤ length (lastLine (document e)))%nat.
Proof. destruct (is_true _); [apply trimRight_length | done]. Qed.

Lemma ensureEndsWithNewLine_no_content (p : KnownProps) (e : MonacoEditor) :
  content p e = [] → ensureEndsWithNewLine p e = e.
Proof.
  intros Hc. unfold Editorconfig.ensureEndsWithNewLine. rewrite Hc.
  by destruct (is_true (insert_final_newline p)).
Qed.

Lemma ensureEndsWithNewLine_lastLine (p : KnownProps) (e : MonacoEditor) :
  ensureEndsWithNewLine p e = e ∨
  lastLine (document (ensureEndsWithNewLine p e))
    = drop (length (content p e)) (lastLine (document e)).
Proof.
  unfold Editorconfig.ensureEndsWithNewLine.
  destruct (is_true (insert_final_newline p)); [| by left].
  destruct (content p e) as [| c rest] eqn:Hc; [by left |].
  right. cbn -[trimRight drop take]. f_equal. lia.
Qed.

(** [ensureEndsWithNewLine], run a second time, makes no edit: what is
    left behind the line ending is empty or white space. *)
Theorem ensureEndsWithNewLine_twice (p : KnownProps) (e : MonacoEditor) :
  ensureEndsWithNewLine p (ensureEndsWithNewLine p e)
    = ensureEndsWithNewLine p e.
Proof.
  destruct (ensureEndsWithNewLine_lastLine p e) as [He | Hlast];
    [by rewrite !He |].
  apply ensureEndsWithNewLine_no_content. rewrite Hlast.
  destruct (is_true (trim_trailing_whitespace p)).
  - apply trimRight_drop.
  - by rewrite drop_all.
Qed.

(** [ensureEndsWithNewLine] makes no edit or one.  The one edit is an
    insertion of LF or CRLF in the last line, at a column behind its first
    character and not behind its end. *)
Theorem final_newline_edit_in_bounds (p : KnownProps) (e : MonacoEditor) :
  let e' := ensureEndsWithNewLine p e in
  e' = e ∨
  ∃ ed, appliedEdits e' = appliedEdits e ++ [ed] ∧
    startLineNumber ed = lineCount (document e) ∧
    endLineNumber ed = lineCount (document e) ∧
    endColumn ed = startColumn ed ∧
    (2 ≤ startColumn ed ≤ length (lastLine (document e)) + 1)%nat ∧
    (text ed = LINE_ENDING_LF ∨ text ed = LINE_ENDING_CRLF).
Proof.
  intros e'. subst e'. unfold Editorconfig.ensureEndsWithNewLine.
  destruct (is_true (insert_final_newline p)); [| by left].
  pose proof (content_length p e) as Hlen.
  destruct (content p e) as [| c rest] eqn:Hc; [by left |].
  right. eexists. split; [reflexivity |]. cbn in *.
  repeat split; try lia. destruct (is_str "crlf" _); auto.
Qed.

(** [ensureEndsWithNewLine] takes no character away and adds none but the
    line ending: the characters of the lines are the same, in the same
    order, and there is at most one line more. *)
Theorem final_newline_keeps_characters (p : KnownProps) (e : MonacoEditor) :
  let e' := ensureEndsWithNewLine p e in
  characters (document e') = characters (document e) ∧
  (lineCount (document e) ≤ lineCount (document e') ≤ S (lineCount (document e)))%nat.
Proof.
  intros e'. subst e'. unfold Editorconfig.ensureEndsWithNewLine.
  destruct (is_true (insert_final_newline p)); [| split; [done | lia]].
  destruct (content p e) as [| c rest] eqn:Hc; [split; [done | lia] |].
  cbn. unfold characters, lineCount. cbn. split.
  - rewrite concat_app. cbn. rewrite app_nil_r, <- app_assoc.
    by rewrite take_drop.
  - rewrite length_app. cbn. lia.
Qed.








(** The handler run before a save changes no option of the text model. *)
Theorem save_keeps_options (p : KnownProps) (e : MonacoEditor) :
  let e' := onWillSaveModel p e in
  insertSpaces e' = insertSpaces e ∧ tabSize e' = tabSize e ∧ EOL e' = EOL e.
Proof.
  intros e'. subst e'. unfold Editorconfig.onWillSaveModel.
  set (e4 := if isSet (trim_trailing_whitespace p)
             then ensureTrimTrailingWhitespace p e else e).
  set (e5 := if isSet (insert_final_newline p)
             then ensureEndsWithNewLine p e4 else e4).
  assert (insertSpaces e4 = insertSpaces e ∧ tabSize e4 = tabSize e ∧
          EOL e4 = EOL e) as (D1 & D2 & D3)
    by (repeat split; apply guarded_frame;
        apply ensureTrimTrailingWhitespace_frame).
  assert (insertSpaces e5 = insertSpaces e4 ∧ tabSize e5 = tabSize e4 ∧
          EOL e5 = EOL e4) as (E1 & E2 & E3)
    by (repeat split; apply guarded_frame;
        apply ensureEndsWithNewLine_frame).
  clearbody e4 e5. repeat split; congruence.
Qed.

(** Which editor it is stays as it was in the first three steps. *)
Lemma options_keep_current (p : KnownProps) (e : MonacoEditor) :
  isCurrentEditor (ensureIndentStyle p e) = isCurrentEditor e ∧
  isCurrentEditor (ensureIndentSize p e) = isCurrentEditor e ∧
  isCurrentEditor (ensureEndOfLine p e) = isCurrentEditor e.
Proof.
  unfold ensureIndentStyle, ensureIndentSize, ensureTabWidth, ensureEndOfLine.
  repeat split; by repeat case_match.
Qed.

Lemma guarded_trim (p : KnownProps) (e : MonacoEditor) :
  executedCommands (if isSet (trim_trailing_whitespace p)
                    then ensureTrimTrailingWhitespace p e else e)
  = executedCommands e
    ++ if is_true (trim_trailing_whitespace p) && isCurrentEditor e
       then ["monaco.editor.action.trimTrailingWhitespace"] else [].
Proof.
  unfold Editorconfig.ensureTrimTrailingWhitespace.
  destruct (trim_trailing_whitespace p) as [| | [|] | | | |]; cbn;
    try (by rewrite app_nil_r); try (by destruct (isSet _); rewrite app_nil_r).
  destruct (isCurrentEditor e); cbn; [done | by rewrite app_nil_r].
Qed.

(** The command that trims white space is run when
    [trim_trailing_whitespace] is [true] and the editor is the current one:
    then once, and else not at all, when the properties are applied and
    before a save. *)
Theorem trim_command_runs_once (p : KnownProps) (e : MonacoEditor) :
  let ran := if is_true (trim_trailing_whitespace p) && isCurrentEditor e
             then ["monaco.editor.action.trimTrailingWhitespace"] else [] in
  executedCommands (applyProperties p e) = executedCommands e ++ ran ∧
  executedCommands (onWillSaveModel p e) = executedCommands e ++ ran.
Proof.
  intros ran. subst ran. split.
  - unfold Editorconfig.applyProperties.
    set (e1 := if isSet (indent_style p) then ensureIndentStyle p e else e).
    set (e2 := if isSet (indent_size p) then ensureIndentSize p e1 else e1).
    set (e3 := if isSet (end_of_line p) then ensureEndOfLine p e2 else e2).
    destruct (options_keep_current p e) as (K1 & _ & _).
    destruct (options_keep_current p e1) as (_ & K2 & _).
    destruct (options_keep_current p e2) as (_ & _ & K3).
    destruct (ensureIndentStyle_frame p e) as (_ & _ & A3 & _).
    destruct (ensureIndentSize_frame p e1) as (_ & _ & B3 & _).
    destruct (ensureEndOfLine_frame p e2) as (_ & _ & C3 & _).
    assert (isCurrentEditor e3 = isCurrentEditor e ∧
            executedCommands e3 = executedCommands e) as [Hc Hx].
    { subst e1 e2 e3. split; repeat case_match; congruence. }
    rewrite guarded_frame by apply ensureEndsWithNewLine_frame.
    by rewrite guarded_trim, Hc, Hx.
  - unfold Editorconfig.onWillSaveModel.
    rewrite guarded_frame by apply ensureEndsWithNewLine_frame.
    apply guarded_trim.
Qed.

End WatcherLaws.

End EditorconfigFacts.

(** * Properties of quick file open *)

Module QuickOpenFacts.

Import QuickOpen.

Section Service.

Context (resolve : string → string → string).

#[local] Abbreviation onType := (QuickOpen.onType).
#[local] Abbreviation handler := (QuickOpen.handler resolve).
#[local] Abbreviation step := (QuickOpen.step resolve).
#[local] Abbreviation run := (QuickOpen.run resolve).

Lemma run_app (evs evs' : list event) (s : QuickFileOpenService) :
  run (evs ++ evs') s = run evs' (run evs s).
Proof. apply foldl_app. Qed.

Lemma accepted_set_stage (n : nat) (q : search) (p : progress)
    (s : QuickFileOpenService) :
  accepted (set_stage n q p s) = accepted s.
Proof. reflexivity. Qed.

(** A cancelled source stays cancelled when [onType] cancels the current
    one and makes a new one. *)
Lemma cancelled_stays (l : list bool) (i t : nat) :
  l !! t = Some true → (<[i := true]> l ++ [false]) !! t = Some true.
Proof.
  intros Ht. apply lookup_app_l_Some.
  destruct (decide (i = t)) as [-> | Hne].
  - apply list_lookup_insert_eq. by apply lookup_lt_Some in Ht.
  - by rewrite list_lookup_insert_ne.
Qed.

(** A superseded search stays superseded, and no event makes a call of its
    acceptor. *)
Lemma superseded_step (n : nat) (s : QuickFileOpenService) (ev : event) :
  superseded n s →
  superseded n (step s ev) ∧ accepted_of n (step s ev) = accepted_of n s.
Proof.
  intros (q & Hq & Hc & Hst). destruct ev as [r | query | m result | m]; cbn.
  - destruct (rootPending s); (split; [by exists q | done]).
  - unfold QuickOpen.onType. destruct (wsRoot s) as [r |];
      [| split; [by exists q | done]].
    split; [| done]. exists q. cbn. split; [by apply lookup_app_l_Some |].
    split; [by apply cancelled_stays | done].
  - unfold QuickOpen.handler.
    destruct (decide (m = n)) as [-> | Hne].
    + rewrite Hq. destruct Hst as [Hst | Hst]; rewrite Hst.
      * unfold isCancellationRequested. rewrite Hc. cbn.
        split; [| done]. eexists. cbn. split.
        -- apply list_lookup_insert_eq. by apply lookup_lt_Some in Hq.
        -- cbn. split; [done | by right].
      * split; [by exists q; auto | done].
    + destruct (searches s !! m) as [q' |] eqn:Hq';
        [| split; [by exists q | done]].
      destruct (stage q'); try (split; [by exists q | done]).
      destruct (negb _); (split; [| done]); exists q; cbn;
        by rewrite list_lookup_insert_ne.
  - unfold QuickOpen.deliver.
    destruct (decide (m = n)) as [-> | Hne].
    + rewrite Hq. destruct Hst as [Hst | Hst]; rewrite Hst;
        (split; [by exists q; auto | done]).
    + destruct (searches s !! m) as [q' |] eqn:Hq';
        [| split; [by exists q | done]].
      destruct (stage q'); try (split; [by exists q | done]).
      split.
      * exists q. cbn. by rewrite list_lookup_insert_ne.
      * unfold accepted_of. cbn. rewrite filter_app, filter_cons_False by done.
        by rewrite filter_nil, app_nil_r.
Qed.

Lemma superseded_run (n : nat) (evs : list event) (s : QuickFileOpenService) :
  superseded n s →
  superseded n (run evs s) ∧ accepted_of n (run evs s) = accepted_of n s.
Proof.
  revert s. induction evs as [| ev evs IH]; intros s Hs; [done |].
  cbn. destruct (superseded_step n s ev Hs) as [Hs' Ha].
  destruct (IH _ Hs') as [Hs'' Ha']. split; [exact Hs'' |].
  etrans; [exact Ha' | exact Ha].
Qed.

Lemma consistent_new_service : consistent new_service.
Proof.
  repeat split; cbn.
  - lia.
  - intros n uris H. by apply elem_of_nil in H.
  - by intros [r [=]].
  - done.
Qed.

Lemma insert_not_nil {A} (l : list A) (i : nat) (x : A) :
  <[i := x]> l ≠ [] → l ≠ [].
Proof. by destruct l. Qed.

Lemma consistent_step (s : QuickFileOpenService) (ev : event) :
  consistent s → consistent (step s ev).
Proof.
  intros Hs. pose proof Hs as (Hci & Hacc & Hroot & Hsearch).
  destruct ev as [r | query | m result | m]; cbn.
  - destruct (rootPending s) eqn:Hp; [| exact Hs].
    repeat split; cbn; try done.
    intros Hne. apply Hsearch, Hroot in Hne. discriminate Hne.
  - unfold QuickOpen.onType.
    destruct (wsRoot s) as [r |] eqn:Hr; [| exact Hs].
    repeat split; cbn.
    + rewrite length_app. cbn. lia.
    + intros n uris Hin. destruct (Hacc n uris Hin) as (q & Hq & Hst).
      exists q. split; [by apply lookup_app_l_Some | done].
    + intros _. apply Hroot. by eexists.
    + intros _. by eexists.
  - unfold QuickOpen.handler.
    destruct (searches s !! m) as [q' |] eqn:Hq'; [| exact Hs].
    destruct (stage q') eqn:Hst'; try exact Hs.
    assert (∀ p, consistent (set_stage m q' p s)) as Hset.
    { intros p. repeat split; cbn; try done.
      - intros n uris Hin. destruct (Hacc n uris Hin) as (q & Hq & Hst).
        exists q. split; [| done].
        rewrite list_lookup_insert_ne; [done |]. intros ->. congruence.
      - intros Hne. by apply insert_not_nil, Hsearch in Hne. }
    destruct (negb _); apply Hset.
  - unfold QuickOpen.deliver.
    destruct (searches s !! m) as [q' |] eqn:Hq'; [| exact Hs].
    destruct (stage q') eqn:Hst'; try exact Hs.
    repeat split; cbn; try done.
    + intros n u Hin. apply elem_of_app in Hin as [Hin | Hin].
      * destruct (Hacc n u Hin) as (q & Hq & Hst). exists q. split; [| done].
        rewrite list_lookup_insert_ne; [done |]. intros ->. congruence.
      * apply list_elem_of_singleton in Hin as [= -> ->]. eexists. split.
        -- apply list_lookup_insert_eq. by apply lookup_lt_Some in Hq'.
        -- done.
    + intros Hne. by apply insert_not_nil, Hsearch in Hne.
Qed.

Lemma consistent_run (evs : list event) (s : QuickFileOpenService) :
  consistent s → consistent (run evs s).
Proof.
  revert s. induction evs as [| ev evs IH]; intros s Hs; [done |].
  cbn. by apply IH, consistent_step.
Qed.

(** The acceptor of a search whose [find] has not resolved has not been
    called. *)
Lemma searching_not_accepted (n : nat) (q : search) (s : QuickFileOpenService) :
  consistent s → searches s !! n = Some q → stage q = Searching →
  accepted_of n s = [].
Proof.
  intros (_ & Hacc & _) Hq Hst. apply elem_of_nil_inv. intros [m uris] Hin.
  apply list_elem_of_filter in Hin as [Hm Hin]. cbn in Hm. subst m.
  destruct (Hacc n uris Hin) as (q' & Hq' & Hst'). congruence.
Qed.

(** [onType] leaves the search in flight superseded. *)
Lemma onType_supersedes (n : nat) (query : string) (s : QuickFileOpenService) :
  consistent s → in_flight n s → superseded n (onType query s).
Proof.
  intros (Hci & _ & _ & Hsearch) (q & Hq & Htok & Hst).
  assert (is_Some (wsRoot s)) as [r Hr].
  { apply Hsearch. intros E. by rewrite E in Hq. }
  unfold QuickOpen.onType. rewrite Hr. exists q. cbn.
  split; [by apply lookup_app_l_Some |]. split; [| by left].
  apply lookup_app_l_Some. rewrite Htok. by apply list_lookup_insert_eq.
Qed.

(** C3.  Search N is in flight, its results not yet resolved, when
    [onType] is called again.  When that call returns the token of N is
    cancelled, and the new search, with a token of its own that is not
    cancelled, is waiting for [find]; whatever happens afterwards, and
    whenever the results of N resolve, the acceptor of N is never called. *)
Theorem superseded_search_never_accepted (before after : list event)
    (query : string) (n : nat) (q : search) :
  let s := run before new_service in
  let s' := step s (OnType query) in
  searches s !! n = Some q → token q = cancelIndicator s →
  stage q = Searching →
  isCancellationRequested (token q) s' = true ∧
  (∃ q', searches s' = searches s ++ [q'] ∧ token q' = cancelIndicator s' ∧
         token q' ≠ token q ∧ lookFor q' = query ∧ stage q' = Searching ∧
         isCancellationRequested (token q') s' = false) ∧
  accepted_of n (run (before ++ OnType query :: after) new_service) = [].
Proof.
  intros s s' Hq Htok Hst.
  assert (consistent s) as Hs by apply consistent_run, consistent_new_service.
  assert (in_flight n s) as Hn by (by exists q).
  pose proof (onType_supersedes n query s Hs Hn) as Hsup.
  pose proof Hs as (Hci & _ & _ & Hsearch).
  assert (is_Some (wsRoot s)) as [r Hr].
  { apply Hsearch. intros E. by rewrite E in Hq. }
  split; [| split].
  - subst s'. cbn. unfold QuickOpen.onType, isCancellationRequested.
    rewrite Hr. cbn. rewrite lookup_app_l_Some with (x := true); [done |].
    rewrite Htok. by apply list_lookup_insert_eq.
  - subst s'. cbn. unfold QuickOpen.onType, isCancellationRequested.
    rewrite Hr. cbn. eexists. split; [reflexivity |]. cbn.
    rewrite length_insert. repeat split; [lia |].
    rewrite lookup_app_r by (rewrite length_insert; lia).
    by rewrite length_insert, Nat.sub_diag.
  - rewrite run_app. cbn. fold s. fold (run after (onType query s)).
    destruct (superseded_run n after _ Hsup) as [_ ->].
    unfold QuickOpen.onType. rewrite Hr. unfold accepted_of. cbn.
    by apply (searching_not_accepted n q s).
Qed.

End Service.

(** ** The properties at work *)

(** Two searches in a workspace: the results of the first resolve after the
    second has started, and only the second reaches its acceptor. *)
Lemma superseded_search_never_accepted_witness :
  let before := [RootResolved (Some "file:///ws"); OnType "a"] in
  let after := [FindResolved 0 ["a.ts"]; ItemsResolved 0;
                FindResolved 1 ["ab.ts"]; ItemsResolved 1] in
  let final := QuickOpen.run join (before ++ OnType "ab" :: after) new_service in
  accepted_of 0 final = [] ∧ accepted final = [(1%nat, ["file:///ws/ab.ts"])].
Proof.
  intros before after final. split; [| reflexivity].
  exact (proj2 (proj2 (superseded_search_never_accepted join before after "ab" 0
                         {| token := 1; lookFor := "a";
                            rootUri := "file:///ws"; useGitIgnore := true;
                            stage := Searching |}
                         eq_refl eq_refl eq_refl))).
Defined.

(** The check of the token is made when the results resolve, not when the
    items are ready: results that resolve before the next [onType] still
    reach their acceptor after it. *)
Example resolved_search_is_accepted_late :
  let evs := [RootResolved (Some "file:///ws"); OnType "a";
              FindResolved 0 ["a.ts"]; OnType "ab"; ItemsResolved 0] in
  let final := QuickOpen.run join evs new_service in
  isCancellationRequested 1 final = true ∧
  accepted final = [(0%nat, ["file:///ws/a.ts"])].
Proof. by vm_compute. Qed.

(** ** Further properties of the service *)

Section ServiceLaws.

Context (resolve : string → string → string).

#[local] Abbreviation handler := (QuickOpen.handler resolve).
#[local] Abbreviation step := (QuickOpen.step resolve).
#[local] Abbreviation run := (QuickOpen.run resolve).
#[local] Abbreviation act := (QuickOpen.act resolve).

Lemma run_snoc (evs : list event) (ev : event) (s : QuickFileOpenService) :
  run (evs ++ [ev]) s = step (run evs s) ev.
Proof. unfold QuickOpen.run. by rewrite foldl_app. Qed.

Lemma numbered_new_service : numbered new_service.
Proof.
  repeat split; cbn; try done.
  intros [| i] b; cbn; [by intros [= <-] | done].
Qed.

Lemma numbered_set_stage (n : nat) (q : search) (p : progress)
    (s : QuickFileOpenService) :
  searches s !! n = Some q → numbered s → numbered (set_stage n q p s).
Proof.
  intros Hq (Hci & Hlen & Htok & Hsrc).
  repeat split; cbn; rewrite ?length_insert; try done.
  intros m q' Hm. destruct (decide (n = m)) as [<- | Hne].
  - rewrite list_lookup_insert_eq in Hm by (by eapply lookup_lt_Some).
    injection Hm as <-. cbn. by apply Htok.
  - rewrite list_lookup_insert_ne in Hm by done. by apply Htok.
Qed.

Lemma numbered_step (s : QuickFileOpenService) (ev : event) :
  numbered s → numbered (step s ev).
Proof.
  intros Hs. pose proof Hs as (Hci & Hlen & Htok & Hsrc).
  destruct ev as [r | query | m result | m]; cbn.
  - by destruct (rootPending s).
  - unfold QuickOpen.onType. destruct (wsRoot s) as [r |]; [| exact Hs].
    repeat split; cbn; rewrite ?length_app, ?length_insert; cbn; try lia.
    + intros n q [[_ Hq] | [-> <-]]%lookup_snoc_Some; [by apply Htok |].
      cbn. lia.
    + intros i b [[Hi Hb] | [Hi <-]]%lookup_snoc_Some.
      * rewrite length_insert in Hi.
        assert (i ≠ length (sources s)) by lia.
        rewrite bool_decide_eq_true_2 by done.
        destruct (decide (cancelIndicator s = i)) as [<- | Hne].
        -- rewrite list_lookup_insert_eq in Hb by lia. congruence.
        -- rewrite list_lookup_insert_ne in Hb by done.
           rewrite (Hsrc i b Hb). by apply bool_decide_eq_true_2.
      * rewrite length_insert in Hi. subst i.
        by rewrite bool_decide_eq_false_2 by auto.
  - unfold QuickOpen.handler.
    destruct (searches s !! m) as [q |] eqn:Hq; [| exact Hs].
    destruct (stage q); try exact Hs.
    destruct (negb _); by apply numbered_set_stage.
  - unfold QuickOpen.deliver.
    destruct (searches s !! m) as [q |] eqn:Hq; [| exact Hs].
    destruct (stage q); try exact Hs.
    by apply (numbered_set_stage m q Finished s Hq) in Hs.
Qed.

Lemma numbered_run (evs : list event) (s : QuickFileOpenService) :
  numbered s → numbered (run evs s).
Proof.
  revert s. induction evs as [| ev evs IH]; intros s Hs; [done |].
  cbn. by apply IH, numbered_step.
Qed.

Lemma newest_is_live (evs : list event) (n : nat) (q : search) :
  let s := run evs new_service in
  searches s !! n = Some q →
  isCancellationRequested (token q) s = false ↔ S n = length (searches s).
Proof.
  intros s Hq.
  assert (numbered s) as (Hci & Hlen & Htok & Hsrc)
    by apply numbered_run, numbered_new_service.
  rewrite (Htok n q Hq). unfold isCancellationRequested.
  pose proof (lookup_lt_Some _ _ _ Hq) as Hn.
  destruct (sources s !! S n) as [b |] eqn:Hb.
  - cbn. rewrite (Hsrc _ _ Hb), Hci. rewrite bool_decide_eq_false. lia.
  - apply lookup_ge_None in Hb. lia.
Qed.

(** Of all the searches made, only the newest can pass the check of its
    token: the token of every older search is cancelled, that of the
    newest is not. *)
Theorem only_newest_search_is_live (evs : list event) (n : nat) (q : search) :
  let s := run evs new_service in
  searches s !! n = Some q →
  isCancellationRequested (token q) s = false ↔ S n = length (searches s).
Proof. apply newest_is_live. Qed.

(** While a handler is not done, its acceptor has not been called. *)
Lemma unfinished_not_accepted (n : nat) (q : search) (s : QuickFileOpenService) :
  consistent s → searches s !! n = Some q → stage q ≠ Finished →
  accepted_of n s = [].
Proof.
  intros (_ & Hacc & _) Hq Hst. apply elem_of_nil_inv. intros [m uris] Hin.
  apply list_elem_of_filter in Hin as [Hm Hin]. cbn in Hm. subst m.
  destruct (Hacc n uris Hin) as (q' & Hq' & Hst'). congruence.
Qed.

Lemma accepted_once_step (s : QuickFileOpenService) (ev : event) (n : nat) :
  consistent s →
  (length (accepted_of n s) ≤ 1)%nat →
  (length (accepted_of n (step s ev)) ≤ 1)%nat.
Proof.
  intros Hs Hn. destruct ev as [r | query | m result | m]; cbn.
  - by destruct (rootPending s).
  - unfold QuickOpen.onType. by destruct (wsRoot s).
  - unfold QuickOpen.handler. repeat case_match; done.
  - unfold QuickOpen.deliver.
    destruct (searches s !! m) as [q |] eqn:Hq; [| done].
    destruct (stage q) as [| uris |] eqn:Hst; try done.
    unfold accepted_of in *. cbn. rewrite filter_app, length_app.
    destruct (decide (m = n)) as [-> | Hne].
    + pose proof (unfinished_not_accepted n q s Hs Hq) as Hnone.
      unfold accepted_of in Hnone. rewrite Hnone by congruence.
      rewrite filter_cons_True by done. cbn. lia.
    + rewrite filter_cons_False by done. cbn. lia.
Qed.

(** The acceptor of a search is called at most once. *)
Theorem acceptor_called_at_most_once (evs : list event) (n : nat) :
  (length (accepted_of n (run evs new_service)) ≤ 1)%nat.
Proof.
  induction evs as [| ev evs IH] using rev_ind; [cbn; lia |].
  rewrite run_snoc. apply accepted_once_step; [| done].
  apply consistent_run, consistent_new_service.
Qed.

(** As long as the workspace has no root, nothing is searched: no source
    is cancelled or made, no request is sent, no acceptor is called. *)
Theorem no_root_no_search (evs : list event) :
  (∀ r, RootResolved (Some r) ∉ evs) →
  let s := run evs new_service in
  wsRoot s = None ∧ sources s = [false] ∧ searches s = [] ∧ accepted s = [].
Proof.
  intros Hevs s. subst s.
  induction evs as [| ev evs IH] using rev_ind; [done |].
  rewrite run_snoc.
  destruct IH as (Hroot & Hsrc & Hsearch & Hacc).
  { intros r Hr. apply (Hevs r). apply elem_of_app. by left. }
  destruct ev as [[r |] | query | m result | m]; cbn.
  - destruct (Hevs r). apply elem_of_app. right. by left.
  - by destruct (rootPending _).
  - unfold QuickOpen.onType. by rewrite Hroot.
  - unfold QuickOpen.handler. by rewrite Hsearch.
  - unfold QuickOpen.deliver. by rewrite Hsearch.
Qed.

(** The URIs collected from a result: each once, and exactly those of the
    paths of the result. *)
Lemma proposed_uris (f : string → string) (result : list string)
    (proposed : list string) :
  NoDup proposed →
  let uris := foldl (λ acc p, add (f p) acc) proposed result in
  NoDup uris ∧ ∀ u, u ∈ uris ↔ u ∈ proposed ∨ ∃ p, p ∈ result ∧ u = f p.
Proof.
  revert proposed. induction result as [| p result IH]; intros proposed Hnd.
  { cbn. split; [done |]. intros u. split; [by left |].
    intros [H | (p & Hp & _)]; [done | by apply elem_of_nil in Hp]. }
  cbn. assert (NoDup (add (f p) proposed)) as Hnd'.
  { unfold add. case_bool_decide; [done |].
    apply NoDup_app. split; [done |]. split; [| apply NoDup_singleton].
    intros u Hu ->%list_elem_of_singleton. done. }
  destruct (IH _ Hnd') as [Hnd'' Hin]. split; [done |].
  intros u. rewrite Hin. unfold add. split.
  - intros [Hu | (p' & Hp' & ->)].
    + case_bool_decide; [by left |].
      apply elem_of_app in Hu as [Hu | ->%list_elem_of_singleton]; [by left |].
      right. exists p. split; [by left | done].
    + right. exists p'. split; [by right | done].
  - intros [Hu | (p' & Hp' & ->)].
    + left. case_bool_decide; [done |]. apply elem_of_app. by left.
    + apply elem_of_cons in Hp' as [-> | Hp'].
      * left. case_bool_decide; [done |]. apply elem_of_app. right. by left.
      * right. by exists p'.
Qed.

Lemma handler_proposes (s : QuickFileOpenService) (n : nat)
    (q : search) (result : list string) :
  searches s !! n = Some q → stage q = Searching →
  isCancellationRequested (token q) s = false →
  ∃ q' uris,
    searches (handler n result s) !! n = Some q' ∧
    stage q' = Converting uris ∧ token q' = token q ∧
    NoDup uris ∧
    (∀ u, u ∈ uris ↔ ∃ p, p ∈ result ∧ u = resolve (rootUri q) p) ∧
    accepted (handler n result s) = accepted s.
Proof.
  intros Hq Hst Hlive. unfold QuickOpen.handler. rewrite Hq, Hst, Hlive. cbn.
  destruct (proposed_uris (resolve (rootUri q)) result [] (NoDup_nil_2))
    as [Hnd Hin].
  eexists _, _. split.
  { apply list_lookup_insert_eq. by eapply lookup_lt_Some. }
  cbn. repeat split; try done.
  - intros Hu. apply Hin in Hu as [Hu | Hu]; [by apply elem_of_nil in Hu | done].
  - intros Hu. apply Hin. by right.
Qed.

(** When the results of a search resolve and its token is not cancelled,
    the handler is left waiting for the items of the URIs of the result
    paths, each URI once; no acceptor is called yet. *)
Theorem handler_proposes_each_uri_once (s : QuickFileOpenService) (n : nat)
    (q : search) (result : list string) :
  searches s !! n = Some q → stage q = Searching →
  isCancellationRequested (token q) s = false →
  ∃ q' uris,
    searches (handler n result s) !! n = Some q' ∧
    stage q' = Converting uris ∧ token q' = token q ∧
    NoDup uris ∧
    (∀ u, u ∈ uris ↔ ∃ p, p ∈ result ∧ u = resolve (rootUri q) p) ∧
    accepted (handler n result s) = accepted s.
Proof. apply handler_proposes. Qed.

(** The newest search, when its results resolve and then its items, with
    no key typed in between, reaches its acceptor: one call, with the URIs
    of the result paths, each once. *)
Theorem newest_search_is_accepted (evs : list event) (n : nat) (q : search)
    (result : list string) :
  let s := run evs new_service in
  searches s !! n = Some q → stage q = Searching →
  S n = length (searches s) →
  ∃ uris,
    accepted (run (evs ++ [FindResolved n result; ItemsResolved n]) new_service)
      = accepted s ++ [(n, uris)] ∧
    NoDup uris ∧
    (∀ u, u ∈ uris ↔ ∃ p, p ∈ result ∧ u = resolve (rootUri q) p).
Proof.
  intros s Hq Hst Hnew.
  pose proof (proj2 (newest_is_live evs n q Hq) Hnew) as Hlive.
  fold s in Hlive.
  destruct (handler_proposes s n q result Hq Hst Hlive)
    as (q' & uris & Hq' & Hst' & _ & Hnd & Hin & Hacc).
  exists uris. split; [| done].
  unfold QuickOpen.run. rewrite foldl_app. fold (run evs new_service). fold s.
  cbn. unfold QuickOpen.deliver. rewrite Hq', Hst'. cbn. by rewrite Hacc.
Qed.

(** ** [open] *)

(** While the widget is not open, the flag [showIgnoredFiles] is [true]:
    each time it is opened, it starts from there. *)
Theorem closed_widget_is_reset (actions : list action) :
  let w := foldl act new_widget actions in
  opened w = false → showIgnoredFiles (service w) = true.
Proof.
  induction actions as [| a actions IH] using rev_ind; [done |].
  rewrite foldl_app. cbn. set (w := foldl act new_widget actions) in *.
  destruct a as [accelerator | | ev]; cbn.
  - unfold open. by destruct (opened w) eqn:Ho.
  - done.
  - intros Ho. specialize (IH Ho).
    destruct ev as [r | query | m result | m]; cbn.
    + by destruct (rootPending _).
    + unfold QuickOpen.onType. by destruct (wsRoot _).
    + unfold QuickOpen.handler. repeat case_match; done.
    + unfold QuickOpen.deliver. repeat case_match; done.
Qed.


Lemma replace_space_first (a rest : string) :
  Ascii.ascii_of_nat 32 ∉ String.list_ascii_of_string a →
  replace_space (a +:+ String (Ascii.ascii_of_nat 32) rest)
    = a +:+ String (Ascii.ascii_of_nat 43) rest.
Proof.
  induction a as [| c a IH]; intros Ha.
  { reflexivity. }
  cbn [String.list_ascii_of_string] in Ha.
  apply not_elem_of_cons in Ha as [Hc Ha].
  change (replace_space (String c a +:+ String (Ascii.ascii_of_nat 32) rest))
    with (if Ascii.eqb c (Ascii.ascii_of_nat 32)
          then String (Ascii.ascii_of_nat 43)
                 (a +:+ String (Ascii.ascii_of_nat 32) rest)
          else String c (replace_space
                           (a +:+ String (Ascii.ascii_of_nat 32) rest))).
  destruct (Ascii.eqb_spec c (Ascii.ascii_of_nat 32)); [done |].
  by rewrite IH.
Qed.

Lemma replace_space_none (a : string) :
  Ascii.ascii_of_nat 32 ∉ String.list_ascii_of_string a → replace_space a = a.
Proof.
  induction a as [| c a IH]; intros Ha; [done |].
  cbn [String.list_ascii_of_string] in Ha.
  apply not_elem_of_cons in Ha as [Hc Ha].
  change (replace_space (String c a))
    with (if Ascii.eqb c (Ascii.ascii_of_nat 32)
          then String (Ascii.ascii_of_nat 43) a
          else String c (replace_space a)).
  destruct (Ascii.eqb_spec c (Ascii.ascii_of_nat 32)); [done |].
  by rewrite IH.
Qed.

(** [getKeyCommand] joins the first two key names with [+] and leaves the
    blanks between the others: only the first blank is replaced. *)
Theorem getKeyCommand_first_blank (key : string) (keys : list string) :
  Ascii.ascii_of_nat 32 ∉ String.list_ascii_of_string key →
  getKeyCommand (Some (key :: keys))
    = Some match keys with
           | [] => key
           | _ :: _ => key +:+ "+" +:+ join_spaces keys
           end.
Proof.
  intros Hkey. unfold getKeyCommand. f_equal.
  destruct keys as [| k keys]; [by apply replace_space_none |].
  change (join_spaces (key :: k :: keys))
    with (key +:+ String (Ascii.ascii_of_nat 32) (join_spaces (k :: keys))).
  by rewrite replace_space_first.
Qed.

End ServiceLaws.

(** ** The further properties at work *)

(** Two searches: the first is cancelled, the second is not. *)
Lemma only_newest_search_is_live_witness :
  let s := QuickOpen.run join
             [RootResolved (Some "file:///ws"); OnType "a"; OnType "ab"]
             new_service in
  isCancellationRequested 1 s = true ∧ isCancellationRequested 2 s = false.
Proof.
  intros s. split; [reflexivity |].
  apply (only_newest_search_is_live join
           [RootResolved (Some "file:///ws"); OnType "a"; OnType "ab"] 1
           {| token := 2; lookFor := "ab"; rootUri := "file:///ws";
              useGitIgnore := true; stage := Searching |} eq_refl).
  reflexivity.
Defined.

Lemma no_root_no_search_witness :
  accepted (QuickOpen.run join
              [OnType "a"; RootResolved None; OnType "ab";
               FindResolved 0 ["a.ts"]; ItemsResolved 0] new_service) = [].
Proof.
  apply (no_root_no_search join).
  intros r Hin. repeat (apply elem_of_cons in Hin as [[=] | Hin]).
  by apply elem_of_nil in Hin.
Defined.

(** A result that names a path twice. *)
Lemma handler_proposes_each_uri_once_witness :
  let s := QuickOpen.run join [RootResolved (Some "file:///ws"); OnType "a"]
             new_service in
  ∃ q' uris,
    searches (QuickOpen.handler join 0 ["a.ts"; "b.ts"; "a.ts"] s) !! 0%nat
      = Some q' ∧
    stage q' = Converting uris ∧ NoDup uris ∧
    "file:///ws/a.ts" ∈ uris.
Proof.
  intros s.
  destruct (handler_proposes_each_uri_once join s 0
              {| token := 1; lookFor := "a"; rootUri := "file:///ws";
                 useGitIgnore := true; stage := Searching |}
              ["a.ts"; "b.ts"; "a.ts"] eq_refl eq_refl eq_refl)
    as (q' & uris & Hq' & Hst & _ & Hnd & Hin & _).
  exists q', uris. repeat split; try done.
  apply Hin. exists "a.ts". split; [by left | reflexivity].
Defined.

Lemma newest_search_is_accepted_witness :
  ∃ uris,
    accepted (QuickOpen.run join
                ([RootResolved (Some "file:///ws"); OnType "a"]
                   ++ [FindResolved 0 ["a.ts"; "a.ts"]; ItemsResolved 0])
                new_service) = [(0%nat, uris)] ∧
    NoDup uris.
Proof.
  destruct (newest_search_is_accepted join
              [RootResolved (Some "file:///ws"); OnType "a"] 0
              {| token := 1; lookFor := "a"; rootUri := "file:///ws";
                 useGitIgnore := true; stage := Searching |}
              ["a.ts"; "a.ts"] eq_refl eq_refl eq_refl)
    as (uris & Hacc & Hnd & _).
  exists uris. by split.
Defined.

(** Opened, toggled and closed: the flag is back at [true]. *)
Lemma closed_widget_is_reset_witness :
  showIgnoredFiles
    (service (foldl (QuickOpen.act join) new_widget
                [Open None; Open None; Loop (OnType "a"); Close])) = true.
Proof.
  by apply (closed_widget_is_reset join
              [Open None; Open None; Loop (OnType "a"); Close]).
Defined.


(** Three key names: a blank is left between the second and the third. *)
Lemma getKeyCommand_first_blank_witness :
  getKeyCommand (Some ["Ctrl"; "Shift"; "P"]) = Some "Ctrl+Shift P".
Proof.
  rewrite getKeyCommand_first_blank; [reflexivity |]. compute_done.
Defined.

End QuickOpenFacts.
